(** * The dev-server dashboard of [packages/snowpack/src/commands/paint.ts]

    [paint(bus, plugins)] keeps a handful of closure variables (console
    lines, one status record per worker, the set of files being built, the
    server address), subscribes one handler per event name, and redraws the
    whole terminal after every event.

    The embedding follows the source statement by statement:
    - the closure variables are the fields of [Model];
    - a handler body is a computation in a small state-and-exception monad
      [M] (property access on a missing record raises [TypeError]);
    - [process.stdout.write] calls are collected, in order, as a list of
      [Text] values; the [kleur/colors] functions are kept as constructors
      of [Text], so that the embedding does not depend on ANSI codes;
    - strings are the UTF-8 bytes that end up on the terminal.

    Boundaries of the model: numbers are integers ([Z]); worker ids are
    own property names of [allWorkerStates] (ids that name a member of
    [Object.prototype], such as [constructor], are not covered);
    [path.relative] and [process.platform] are parameters.

    [getPort], the other export of the file, is embedded as a function of
    what it reads from its surroundings (the answer of [detectPort], whether
    standard output is a terminal, the line the user types); it is assumed
    that the user answers the question. *)

From Stdlib Require Import ZArith String Ascii List Bool Lia.
From stdpp Require Import gmap strings list pretty.

Open Scope string_scope.
Open Scope nat_scope.

(** ** JavaScript strings *)

Definition LF : ascii := "010"%char.

(** The two-character string [\n\n] written after every section. *)
Definition blank_line : string := String LF (String LF "").

(** [`\n  `]: line break followed by the two-space indent. *)
Definition indent_break : string := String LF "  ".

Definition utf8 (bytes : list nat) : string :=
  string_of_list_ascii (map ascii_of_nat bytes).

(** [String.prototype.includes]. *)
Fixpoint includes (hay needle : string) : bool :=
  String.prefix needle hay ||
  match hay with
  | EmptyString => false
  | String _ rest => includes rest needle
  end.

(** The characters removed by [String.prototype.trim]: ECMAScript
    WhiteSpace and LineTerminator, in their UTF-8 encoding
    (TAB, LF, VT, FF, CR, SP, U+00A0, U+1680, U+2000..U+200A, U+2028,
    U+2029, U+202F, U+205F, U+3000, U+FEFF). *)
Definition white_space : list string :=
  [ utf8 [9]; utf8 [10]; utf8 [11]; utf8 [12]; utf8 [13]; utf8 [32];
    utf8 [194; 160]; utf8 [225; 154; 128];
    utf8 [226; 128; 128]; utf8 [226; 128; 129]; utf8 [226; 128; 130];
    utf8 [226; 128; 131]; utf8 [226; 128; 132]; utf8 [226; 128; 133];
    utf8 [226; 128; 134]; utf8 [226; 128; 135]; utf8 [226; 128; 136];
    utf8 [226; 128; 137]; utf8 [226; 128; 138];
    utf8 [226; 128; 168]; utf8 [226; 128; 169]; utf8 [226; 128; 175];
    utf8 [226; 129; 159]; utf8 [227; 128; 128]; utf8 [239; 187; 191] ].

Definition string_rev (s : string) : string :=
  string_of_list_ascii (rev (list_ascii_of_string s)).

Definition string_drop (n : nat) (s : string) : string :=
  String.substring n (String.length s - n) s.

(** Removes one leading character of [ws] from [s], if there is one. *)
Fixpoint strip_one (ws : list string) (s : string) : option string :=
  match ws with
  | [] => None
  | w :: ws' =>
      if String.prefix w s then Some (string_drop (String.length w) s)
      else strip_one ws' s
  end.

Fixpoint strip_all (fuel : nat) (ws : list string) (s : string) : string :=
  match fuel with
  | O => s
  | S fuel' =>
      match strip_one ws s with
      | Some s' => strip_all fuel' ws s'
      | None => s
      end
  end.

Definition trimStart (s : string) : string :=
  strip_all (String.length s) white_space s.

Definition trimEnd (s : string) : string :=
  string_rev
    (strip_all (String.length s) (map string_rev white_space) (string_rev s)).

(** [String.prototype.trim]. *)
Definition trim (s : string) : string := trimEnd (trimStart s).

(** [s.replace(/\n/gm, '\n  ')]: every line feed is followed by the
    two-space indent. *)
Fixpoint indent_lines (s : string) : string :=
  match s with
  | EmptyString => EmptyString
  | String c rest =>
      if Ascii.eqb c LF then indent_break ++ indent_lines rest
      else String c (indent_lines rest)
  end.

(** [Array.prototype.join] on an array of strings. *)
Definition join (sep : string) (l : list string) : string :=
  String.concat sep l.

(** Truthiness of a string: the empty string is the only falsy one. *)
Definition truthy_string (s : string) : bool := negb (String.eqb s "").

(** A template literal prints an [undefined] value as [undefined]. *)
Definition show_string (s : option string) : string :=
  match s with Some x => x | None => "undefined" end.

(** A template literal prints an integer in decimal. *)
Definition show_number (n : option Z) : string :=
  match n with Some z => pretty z | None => "undefined" end.

(** [x > 0] for a variable that may still be [undefined]:
    [undefined > 0] is [false]. *)
Definition positive_number (n : option Z) : bool :=
  match n with Some z => (0 <? z)%Z | None => false end.

(** ** Styled terminal text

    [Styled f t] stands for the call [colors.f(t)] and [Cat] for the
    juxtaposition of two parts of a template literal. *)

Inductive Style : Type :=
  | bold | underline | dim | red | reset
  | white | black | bgBlue | bgGreen | bgYellow.

Inductive Text : Type :=
  | Plain (s : string)
  | Styled (f : Style) (t : Text)
  | Cat (a b : Text).

(** The characters of a text once the styling is dropped. *)
Fixpoint plain_text (t : Text) : string :=
  match t with
  | Plain s => s
  | Styled _ t' => plain_text t'
  | Cat a b => plain_text a ++ plain_text b
  end.

(** The outermost colour function applied to the first part of a write. *)
Definition outer_style (t : Text) : option Style :=
  match t with
  | Cat (Styled f _) _ => Some f
  | Styled f _ => Some f
  | _ => None
  end.

(** ** Worker records *)

(** [state: null | [string, string]]; a payload that omits the field
    delivers [undefined]. *)
Inductive StateVal : Type :=
  | StUndefined
  | StNull
  | StPair (label color : string).

(** [error: null | Error]; the renderer also asks whether the value is an
    array, so arrays are part of the model. *)
Inductive ErrorVal : Type :=
  | ErrNull
  | ErrObject (message : string)
  | ErrArray (items : list string).

Record WorkerState : Type := mkWorkerState {
  done : bool;
  state : StateVal;
  error : ErrorVal;
  output : string
}.

Definition WORKER_BASE_STATE : WorkerState :=
  {| done := false; error := ErrNull; state := StNull; output := "" |}.

Definition set_done (v : bool) (w : WorkerState) : WorkerState :=
  {| done := v; state := state w; error := error w; output := output w |}.

Definition set_state (v : StateVal) (w : WorkerState) : WorkerState :=
  {| done := done w; state := v; error := error w; output := output w |}.

Definition set_error (v : ErrorVal) (w : WorkerState) : WorkerState :=
  {| done := done w; state := state w; error := v; output := output w |}.

Definition set_output (v : string) (w : WorkerState) : WorkerState :=
  {| done := done w; state := state w; error := error w; output := v |}.

(** Objects and arrays are truthy, [null] is not. *)
Definition truthy_error (e : ErrorVal) : bool :=
  match e with
  | ErrNull => false
  | ErrObject _ | ErrArray _ => true
  end.

(** [a || b] on error values. *)
Definition or_else (a b : ErrorVal) : ErrorVal :=
  if truthy_error a then a else b.

(** [Array.isArray]. *)
Definition isArray (e : ErrorVal) : bool :=
  match e with
  | ErrArray _ => true
  | ErrNull | ErrObject _ => false
  end.

(** [typeof] of a state value: [null] and arrays are objects. *)
Definition typeof_state (s : StateVal) : string :=
  match s with
  | StUndefined => "undefined"
  | StNull | StPair _ _ => "object"
  end.

(** The two kinds of operand that meet in [typeof state !== undefined]. *)
Inductive Operand : Type :=
  | OString (s : string)
  | OUndefined.

(** Strict equality [===]: operands of different types are never equal. *)
Definition strict_eq (a b : Operand) : bool :=
  match a, b with
  | OString x, OString y => String.eqb x y
  | OUndefined, OUndefined => true
  | _, _ => false
  end.

(** The table [displayName = {tsc: 'TypeScript'}]; any other key reads as
    [undefined]. *)
Definition displayName (script : string) : option string :=
  if String.eqb script "tsc" then Some "TypeScript" else None.

(** If output is not important, hide it. *)
Definition hideOutput (cmd stdout : string) : bool :=
  if String.eqb cmd "svelte-check" then includes stdout "found no errors"
  else if String.eqb cmd "tsc" then includes stdout "Found 0 errors."
  else false.

(** ** The object [allWorkerStates]

    Own properties in creation order.  Assigning to an existing key keeps
    its position; assigning to a new key appends it. *)

Fixpoint get_worker (id : string) (o : list (string * WorkerState))
  : option WorkerState :=
  match o with
  | [] => None
  | (k, w) :: rest => if String.eqb k id then Some w else get_worker id rest
  end.

Fixpoint put_worker (id : string) (w : WorkerState)
  (o : list (string * WorkerState)) : list (string * WorkerState) :=
  match o with
  | [] => [(id, w)]
  | (k, v) :: rest =>
      if String.eqb k id then (k, w) :: rest
      else (k, v) :: put_worker id w rest
  end.

(** [Object.entries] lists array-index keys first, in ascending numeric
    order, and then the other keys in creation order.  An array index is
    the canonical decimal form of an integer below [2^32 - 1]. *)

Definition digit_of (c : ascii) : option N :=
  let n := N_of_ascii c in
  if ((48 <=? n) && (n <=? 57))%N then Some (n - 48)%N else None.

Fixpoint parse_digits (acc : N) (s : string) : option N :=
  match s with
  | EmptyString => Some acc
  | String c rest =>
      match digit_of c with
      | Some d => parse_digits (acc * 10 + d)%N rest
      | None => None
      end
  end.

Definition array_index (key : string) : option N :=
  match key with
  | EmptyString => None
  | _ =>
      match parse_digits 0%N key with
      | Some n =>
          if String.eqb (pretty n) key && (n <? 2 ^ 32 - 1)%N
          then Some n else None
      | None => None
      end
  end.

Fixpoint insert_indexed {A : Type} (i : N) (x : A) (l : list (N * A))
  : list (N * A) :=
  match l with
  | [] => [(i, x)]
  | (j, y) :: rest =>
      if (i <=? j)%N then (i, x) :: l else (j, y) :: insert_indexed i x rest
  end.

Fixpoint indexed_entries (o : list (string * WorkerState))
  : list (N * (string * WorkerState)) :=
  match o with
  | [] => []
  | (k, w) :: rest =>
      match array_index k with
      | Some i => insert_indexed i (k, w) (indexed_entries rest)
      | None => indexed_entries rest
      end
  end.

Fixpoint named_entries (o : list (string * WorkerState))
  : list (string * WorkerState) :=
  match o with
  | [] => []
  | (k, w) :: rest =>
      match array_index k with
      | Some _ => named_entries rest
      | None => (k, w) :: named_entries rest
      end
  end.

Definition Object_entries (o : list (string * WorkerState))
  : list (string * WorkerState) :=
  map snd (indexed_entries o) ++ named_entries o.

(** ** The closure variables of [paint] *)

Record Model : Type := mkModel {
  port : option Z;
  hostname : option string;
  protocol : string;
  startTimeMs : option Z;
  ips : list string;
  consoleOutput : list string;
  installOutput : string;
  isInstalling : bool;
  allWorkerStates : list (string * WorkerState);
  allFileBuilds : gset string
}.

Definition set_allWorkerStates (v : list (string * WorkerState)) (m : Model)
  : Model :=
  {| port := port m; hostname := hostname m; protocol := protocol m;
     startTimeMs := startTimeMs m; ips := ips m;
     consoleOutput := consoleOutput m; installOutput := installOutput m;
     isInstalling := isInstalling m;
     allWorkerStates := v; allFileBuilds := allFileBuilds m |}.

Definition set_allFileBuilds (v : gset string) (m : Model) : Model :=
  {| port := port m; hostname := hostname m; protocol := protocol m;
     startTimeMs := startTimeMs m; ips := ips m;
     consoleOutput := consoleOutput m; installOutput := installOutput m;
     isInstalling := isInstalling m;
     allWorkerStates := allWorkerStates m; allFileBuilds := v |}.

Definition set_consoleOutput (v : list string) (m : Model) : Model :=
  {| port := port m; hostname := hostname m; protocol := protocol m;
     startTimeMs := startTimeMs m; ips := ips m;
     consoleOutput := v; installOutput := installOutput m;
     isInstalling := isInstalling m;
     allWorkerStates := allWorkerStates m;
     allFileBuilds := allFileBuilds m |}.

(** The payload of [SERVER_START]; a field has the type of the variable it
    is stored in, [None] standing for a field the payload leaves out. *)
Record ServerInfo : Type := mkServerInfo {
  info_startTimeMs : option Z;
  info_hostname : option string;
  info_port : option Z;
  info_protocol : string;
  info_ips : list string
}.

Definition set_server (info : ServerInfo) (m : Model) : Model :=
  {| startTimeMs := info_startTimeMs info;
     hostname := info_hostname info;
     port := info_port info;
     protocol := info_protocol info;
     ips := info_ips info;
     consoleOutput := consoleOutput m; installOutput := installOutput m;
     isInstalling := isInstalling m;
     allWorkerStates := allWorkerStates m;
     allFileBuilds := allFileBuilds m |}.

(** The variables as declared at the top of [paint], before the loop over
    [plugins]. *)
Definition declared : Model :=
  {| port := None; hostname := None; protocol := ""; startTimeMs := None;
     ips := []; consoleOutput := []; installOutput := "";
     isInstalling := false; allWorkerStates := []; allFileBuilds := ∅ |}.

(** [for (const plugin of plugins) allWorkerStates[plugin] = {...WORKER_BASE_STATE}]. *)
Definition register_plugins (plugins : list string)
  : list (string * WorkerState) :=
  fold_left (fun o plugin => put_worker plugin WORKER_BASE_STATE o) plugins [].

Definition initial (plugins : list string) : Model :=
  set_allWorkerStates (register_plugins plugins) declared.

(** ** Handlers as stateful computations that may throw *)

Inductive Exn : Type := TypeError.

(** The result of running statements from a model: either a value or an
    exception, together with the variables as they are at that point. *)
Inductive Result (A : Type) : Type :=
  | Ok (a : A) (m : Model)
  | Throw (e : Exn) (m : Model).

Arguments Ok {A} a m.
Arguments Throw {A} e m.

Definition M (A : Type) : Type := Model -> Result A.

#[global] Instance M_ret : MRet M := fun A a m => Ok a m.

#[global] Instance M_bind : MBind M := fun A B f c m =>
  match c m with
  | Ok a m' => f a m'
  | Throw e m' => Throw e m'
  end.

Definition modify (f : Model -> Model) : M unit := fun m => Ok tt (f m).

(** The variables after a computation, whether it returned or threw. *)
Definition model_after {A : Type} (r : Result A) : Model :=
  match r with
  | Ok _ m => m
  | Throw _ m => m
  end.

(** What a handler wrote to the terminal; a handler that throws does so
    before it reaches [repaint]. *)
Definition written (r : Result (list Text)) : list Text :=
  match r with
  | Ok screen _ => screen
  | Throw _ _ => []
  end.

Definition throws {A : Type} (r : Result A) : bool :=
  match r with
  | Ok _ _ => false
  | Throw _ _ => true
  end.

(** [setupWorker(id)]: a record is truthy, a missing one is not. *)
Definition setupWorker (id : string) : M unit := fun m =>
  match get_worker id (allWorkerStates m) with
  | Some _ => Ok tt m
  | None =>
      Ok tt (set_allWorkerStates
               (put_worker id WORKER_BASE_STATE (allWorkerStates m)) m)
  end.

(** [allWorkerStates[id].field = ...]: reading or writing a property of a
    missing record raises [TypeError]. *)
Definition update_worker (id : string) (f : WorkerState -> WorkerState)
  : M unit := fun m =>
  match get_worker id (allWorkerStates m) with
  | Some w =>
      Ok tt (set_allWorkerStates (put_worker id (f w) (allWorkerStates m)) m)
  | None => Throw TypeError m
  end.

(** The events of [paintEvent]. *)
Inductive Event : Type :=
  | BUILD_FILE (id : string) (isBuilding : bool)
  | WORKER_MSG (id msg : string)
  | WORKER_UPDATE (id : string) (st : StateVal)
  | WORKER_COMPLETE (id : string) (err : ErrorVal)
  | WORKER_RESET (id : string)
  | INFO (args : string)
  | WARN (args : string)
  | ERROR (args : string)
  | SERVER_START (info : ServerInfo)
  | NEW_SESSION
  | SERVER_RESPONSE.

(** ** [getPort]

    [getPort] awaits [detectPort], may ask one question on the terminal and
    may end the process.  Its surroundings are parameters: the answer of
    [detectPort], whether standard output is a terminal, and the line the
    user types when asked.  The result is the list of its actions on the
    terminal, in order, and the way it ends. *)

(** The two messages of [getPort]. *)
Inductive PortMessage : Type :=
  | AskNextPort (defaultPort bestAvailablePort : Z)
  | PortNotAvailable (defaultPort : Z).

(** The characters of a message once the styling is dropped. *)
Definition message_text (msg : PortMessage) : string :=
  match msg with
  | AskNextPort defaultPort bestAvailablePort =>
      "! Port " ++ pretty defaultPort ++ " not available. Run on port "
      ++ pretty bestAvailablePort ++ " instead? (Y/n) "
  | PortNotAvailable defaultPort =>
      "✘ Port " ++ pretty defaultPort
      ++ " not available. Use --port to specify a different port."
  end.

Inductive PortIO : Type :=
  | rl_question (query : PortMessage)
  | rl_close
  | console_error (line : option PortMessage).

Inductive PortOutcome : Type :=
  | Returned (port : Z)
  | Exited (code : Z).

(** Case folding of the [i] flag: a letter is compared by its upper case. *)
Definition canonicalize (c : ascii) : ascii :=
  let n := nat_of_ascii c in
  if (97 <=? n) && (n <=? 122) then ascii_of_nat (n - 32) else c.

(** [/^no?$/i.test(answer)]: the whole answer is [n] or [no], in either
    case. *)
Definition test_no (answer : string) : bool :=
  match answer with
  | String c EmptyString => Ascii.eqb (canonicalize c) "N"
  | String c (String d EmptyString) =>
      Ascii.eqb (canonicalize c) "N" && Ascii.eqb (canonicalize d) "O"
  | _ => false
  end.

Definition getPort (detectPort : Z -> Z) (isTTY : bool) (answer : string)
  (defaultPort : Z) : list PortIO * PortOutcome :=
  let bestAvailablePort := detectPort defaultPort in
  if negb (Z.eqb defaultPort bestAvailablePort) then
    let asked :=
      if isTTY then
        ([rl_question (AskNextPort defaultPort bestAvailablePort); rl_close],
         negb (test_no answer))
      else ([], false) in
    let useNextPort := snd asked in
    if negb useNextPort then
      ((fst asked ++ [ console_error (Some (PortNotAvailable defaultPort));
                       console_error None ])%list,
       Exited 1%Z)
    else (fst asked, Returned bestAvailablePort)
  else ([], Returned bestAvailablePort).

(** A [detectPort] that finds the next port up when 3000 is taken. *)
Definition detect_3000_taken (p : Z) : Z :=
  if Z.eqb p 3000 then 3001%Z else p.

(** ** Inputs used in the examples *)

(** [path.relative(cwd, p)] is [p] itself when [p] is a plain path below
    [cwd] written relatively (no [.] or [..] segment, no leading slash). *)
Definition relative_plain (from to : string) : string := to.

(** The payload of the server-start scenario, which has no [startTimeMs]. *)
Definition scenario_info : ServerInfo :=
  {| info_startTimeMs := None; info_hostname := Some "localhost";
     info_port := Some 8080%Z; info_protocol := "http://";
     info_ips := ["192.168.1.5"] |}.

(** The same payload with a start time. *)
Definition scenario_info_at (t : Z) : ServerInfo :=
  {| info_startTimeMs := Some t; info_hostname := Some "localhost";
     info_port := Some 8080%Z; info_protocol := "http://";
     info_ips := ["192.168.1.5"] |}.

(** ** [paint]: the renderer and the handlers *)

Section Paint.

Variable platform : string.
Variable cwd : string.
Variable path_relative : string -> string -> string.

Definition ESC : ascii := "027"%char.

(** Clear Page. *)
Definition clear_page : Text :=
  if String.eqb platform "win32"
  then Plain (String ESC "[2J" ++ String ESC "[0f")
  else Plain (String ESC "[2J" ++ String ESC "[3J" ++ String ESC "[H").

Definition console_header : Text :=
  Cat (Styled underline (Styled bold (Plain "▼ Console"))) (Plain blank_line).

(** Print the Console. *)
Definition console_section (m : Model) : list Text :=
  if negb (Nat.eqb (length (consoleOutput m)) 0) then
    [ console_header;
      Plain (join indent_break (consoleOutput m));
      Plain blank_line ]
  else [].

(** ['▼ ' + displayName[script] || script]: [+] binds tighter than [||],
    so the right operand is used only if the concatenation is empty. *)
Definition worker_title (script : string) : string :=
  let concatenated := "▼ " ++ show_string (displayName script) in
  if truthy_string concatenated then concatenated else script.

Definition worker_header (colorsFn : Style) (script : string) : Text :=
  Cat (Styled colorsFn (Styled underline (Styled bold
         (Plain (worker_title script)))))
      (Plain blank_line).

(** One iteration of the loop over [Object.entries(allWorkerStates)]. *)
Definition worker_section (entry : string * WorkerState) : list Text :=
  let script := fst entry in
  let workerState := snd entry in
  if truthy_string (output workerState)
     && negb (hideOutput script (output workerState))
  then
    let colorsFn := if isArray (error workerState) then red else reset in
    [ worker_header colorsFn script;
      Plain (indent_lines (trim (output workerState)));
      Plain blank_line ]
  else [].

(** Print the Workers. *)
Definition worker_sections (m : Model) : list Text :=
  flat_map worker_section (Object_entries (allWorkerStates m)).

Definition isServerStarted (m : Model) : bool :=
  positive_number (startTimeMs m) && positive_number (port m)
  && truthy_string (protocol m).

Definition building_indicator : Text := Styled dim (Plain " Building…").

Definition snowpack_badge : Text :=
  Styled bgBlue (Styled white (Plain " SNOWPACK ")).

Definition ready_badge : Text := Styled bgGreen (Styled black (Plain " READY ")).

Definition loading_badge : Text :=
  Styled bgYellow (Styled black (Plain " LOADING ")).

Definition ready_line (m : Model) : Text :=
  Cat snowpack_badge
    (Cat ready_badge
       (Plain (" " ++ show_string (hostname m) ++ ":" ++ show_number (port m)
               ++ " › " ++ show_string (nth_error (ips m) 0)))).

Definition loading_line : Text := Cat snowpack_badge loading_badge.

(** Dashboard. *)
Definition dashboard (m : Model) : list Text :=
  if isServerStarted m then
    (if Nat.ltb 0 (size (allFileBuilds m)) then [building_indicator] else [])
    ++ [ready_line m]
  else [loading_line].

Definition install_header : Text :=
  Cat (Styled underline (Styled bold (Plain "▼ snowpack install")))
      (Plain blank_line).

Definition install_section (m : Model) : list Text :=
  if isInstalling m then
    [ install_header;
      Plain ("  " ++ indent_lines (trim (installOutput m)));
      Plain blank_line ]
  else [].

(** The writes of one call of [repaint()], in order. *)
Definition screen (m : Model) : list Text :=
  clear_page :: console_section m ++ worker_sections m ++ dashboard m
  ++ install_section m.

Definition repaint : M (list Text) := fun m => Ok (screen m) m.

Definition on_BUILD_FILE (id : string) (isBuilding : bool) : M (list Text) :=
  (if isBuilding
   then modify (fun m =>
          set_allFileBuilds ({[path_relative cwd id]} ∪ allFileBuilds m) m)
   else modify (fun m =>
          set_allFileBuilds (allFileBuilds m ∖ {[path_relative cwd id]}) m)) ;;
  repaint.

Definition on_WORKER_MSG (id msg : string) : M (list Text) :=
  setupWorker id ;;
  update_worker id (fun w => set_output (output w ++ msg) w) ;;
  repaint.

Definition on_WORKER_UPDATE (id : string) (st : StateVal) : M (list Text) :=
  (if negb (strict_eq (OString (typeof_state st)) OUndefined)
   then setupWorker id ;; update_worker id (set_state st)
   else mret tt) ;;
  repaint.

Definition on_WORKER_COMPLETE (id : string) (err : ErrorVal) : M (list Text) :=
  update_worker id (set_state (StPair "DONE" "green")) ;;
  update_worker id (set_done true) ;;
  update_worker id (fun w => set_error (or_else (error w) err) w) ;;
  repaint.

Definition on_WORKER_RESET (id : string) : M (list Text) :=
  modify (fun m =>
    set_allWorkerStates
      (put_worker id WORKER_BASE_STATE (allWorkerStates m)) m) ;;
  repaint.

(** The handlers of [INFO], [WARN] and [ERROR] have the same body. *)
Definition on_log (args : string) : M (list Text) :=
  modify (fun m => set_consoleOutput (consoleOutput m ++ [args]) m) ;;
  repaint.

Definition on_SERVER_START (info : ServerInfo) : M (list Text) :=
  modify (set_server info) ;;
  repaint.

(** [bus.emit]: the subscribed handler runs; [NEW_SESSION] and
    [SERVER_RESPONSE] have no subscriber here, so nothing runs and nothing
    is written. *)
Definition emit (e : Event) : M (list Text) :=
  match e with
  | BUILD_FILE id isBuilding => on_BUILD_FILE id isBuilding
  | WORKER_MSG id msg => on_WORKER_MSG id msg
  | WORKER_UPDATE id st => on_WORKER_UPDATE id st
  | WORKER_COMPLETE id err => on_WORKER_COMPLETE id err
  | WORKER_RESET id => on_WORKER_RESET id
  | INFO args | WARN args | ERROR args => on_log args
  | SERVER_START info => on_SERVER_START info
  | NEW_SESSION | SERVER_RESPONSE => mret []
  end.

(** The variables after one event. An exception leaves [emit] towards the
    producer of the event; the variables stay as the handler left them. *)
Definition step (m : Model) (e : Event) : Model := model_after (emit e m).

(** The variables after a sequence of events. *)
Definition run (m : Model) (es : list Event) : Model := fold_left step es m.

(** What the events of a sequence write, one entry per event. *)
Fixpoint screens (m : Model) (es : list Event) : list (list Text) :=
  match es with
  | [] => []
  | e :: es' => written (emit e m) :: screens (step m e) es'
  end.

(** Everything [paint(bus, plugins)] writes: the first [repaint()] at the
    end of [paint], then one screen per event. *)
Definition paint (plugins : list string) (es : list Event) : list (list Text) :=
  screen (initial plugins) :: screens (initial plugins) es.

(** The record of worker [id], if there is one. *)
Definition WorkerStatus (id : string) (m : Model) : option WorkerState :=
  get_worker id (allWorkerStates m).

(** The line an event adds to the console, if it is a log event. *)
Definition logged (e : Event) : list string :=
  match e with
  | INFO args | WARN args | ERROR args => [args]
  | _ => []
  end.

(** The worker an event is addressed to. *)
Definition event_worker (e : Event) : option string :=
  match e with
  | WORKER_MSG id _ | WORKER_UPDATE id _ | WORKER_COMPLETE id _
  | WORKER_RESET id => Some id
  | _ => None
  end.

(** What the [WORKER_MSG] events of a sequence send to worker [w], in
    order. *)
Fixpoint messages_for (w : string) (es : list Event) : string :=
  match es with
  | [] => ""
  | WORKER_MSG id msg :: es' =>
      if String.eqb id w then msg ++ messages_for w es'
      else messages_for w es'
  | _ :: es' => messages_for w es'
  end.

(** The payload of the last [SERVER_START] of a sequence. *)
Fixpoint last_server_start (es : list Event) : option ServerInfo :=
  match es with
  | [] => None
  | SERVER_START info :: es' =>
      match last_server_start es' with
      | Some later => Some later
      | None => Some info
      end
  | _ :: es' => last_server_start es'
  end.

(** The keys of [allWorkerStates], in creation order. *)
Definition worker_keys (m : Model) : list string :=
  map fst (allWorkerStates m).

(** A string made of white-space characters only. *)
Inductive white_run (ws : list string) : string -> Prop :=
  | white_run_nil : white_run ws ""
  | white_run_cons w s : In w ws -> white_run ws s -> white_run ws (w ++ s).

(** The five variables that [SERVER_START] assigns. *)
Definition server_vars (m : Model)
  : option Z * option string * option Z * string * list string :=
  (startTimeMs m, hostname m, port m, protocol m, ips m).

Definition info_vars (info : ServerInfo)
  : option Z * option string * option Z * string * list string :=
  (info_startTimeMs info, info_hostname info, info_port info,
   info_protocol info, info_ips info).

(** What [WORKER_COMPLETE] makes of an existing record. *)
Definition completed (err : ErrorVal) (w : WorkerState) : WorkerState :=
  {| done := true; state := StPair "DONE" "green";
     error := or_else (error w) err; output := output w |}.

(** ** Properties of the string functions *)

Lemma prefix_length w s :
  String.prefix w s = true → String.length w ≤ String.length s.
Proof.
  revert s. induction w as [|a w IH]; intros [|b s]; simpl;
    try (intros; lia); try done.
  destruct (ascii_dec a b); [|done]. intros H. apply IH in H. lia.
Qed.

Lemma substring_length n k s :
  n + k ≤ String.length s → String.length (substring n k s) = k.
Proof.
  revert n k. induction s as [|c s IH]; intros [|n] [|k]; simpl; try lia.
  - intros H. rewrite IH; lia.
  - intros H. apply (IH n 0). lia.
  - intros H. apply (IH n (S k)). lia.
Qed.

Lemma string_drop_length n s :
  n ≤ String.length s → String.length (string_drop n s) = String.length s - n.
Proof. intros H. unfold string_drop. apply substring_length. lia. Qed.

(** Removing a character makes the string shorter. *)
Lemma strip_one_shorter ws s s' :
  Forall (λ w, w ≠ "") ws → strip_one ws s = Some s' →
  String.length s' < String.length s.
Proof.
  induction 1 as [|w ws Hw Hws IH]; simpl; [done|].
  destruct (String.prefix w s) eqn:Hp; [|exact IH].
  intros [= <-]. apply prefix_length in Hp.
  rewrite string_drop_length by exact Hp.
  destruct w; [done | simpl in *; lia].
Qed.

(** With fuel equal to the length of the string, [strip_all] stops only
    when no character of [ws] is left at the front. *)
Lemma strip_all_done fuel ws s :
  Forall (λ w, w ≠ "") ws → String.length s ≤ fuel →
  strip_one ws (strip_all fuel ws s) = None.
Proof.
  intros Hws. revert s. induction fuel as [|fuel IH]; intros s Hlen; simpl.
  - destruct (strip_one ws s) as [s'|] eqn:Hs; [|done].
    apply strip_one_shorter in Hs; [lia | exact Hws].
  - destruct (strip_one ws s) as [s'|] eqn:Hs; [|exact Hs].
    apply IH. apply strip_one_shorter in Hs; [lia | exact Hws].
Qed.

Lemma white_space_nonempty : Forall (λ w, w ≠ "") white_space.
Proof. repeat (constructor; [discriminate|]). constructor. Qed.

Lemma white_space_rev_nonempty :
  Forall (λ w, w ≠ "") (map string_rev white_space).
Proof. repeat (constructor; [discriminate|]). constructor. Qed.

Lemma string_of_list_ascii_length l :
  String.length (string_of_list_ascii l) = length l.
Proof. induction l as [|c l IH]; simpl; [done | by rewrite IH]. Qed.

Lemma list_ascii_of_string_length s :
  length (list_ascii_of_string s) = String.length s.
Proof. induction s as [|c s IH]; simpl; [done | by rewrite IH]. Qed.

Lemma string_rev_length s : String.length (string_rev s) = String.length s.
Proof.
  unfold string_rev.
  by rewrite string_of_list_ascii_length, length_rev,
    list_ascii_of_string_length.
Qed.

Lemma string_rev_involutive s : string_rev (string_rev s) = s.
Proof.
  unfold string_rev.
  by rewrite list_ascii_of_string_of_list_ascii, rev_involutive,
    string_of_list_ascii_of_string.
Qed.

(** [trimStart] leaves no white space at the front, [trimEnd] none at the
    end. *)
Lemma trimStart_stripped s : strip_one white_space (trimStart s) = None.
Proof. apply strip_all_done; [apply white_space_nonempty | done]. Qed.

Lemma trimEnd_stripped s :
  strip_one (map string_rev white_space) (string_rev (trimEnd s)) = None.
Proof.
  unfold trimEnd. rewrite string_rev_involutive.
  apply strip_all_done; [apply white_space_rev_nonempty|].
  by rewrite string_rev_length.
Qed.

(** Every line feed of the output is followed by the indent. *)
Lemma indent_lines_app a b :
  indent_lines (a ++ b) = indent_lines a ++ indent_lines b.
Proof.
  induction a as [|c a IH]; simpl; [done|].
  destruct (Ascii.eqb c LF); simpl; by rewrite IH.
Qed.

Example trim_example :
  trim (String LF "  src/a.ts: error  " ++ utf8 [194; 160] ++ String LF "")
  = "src/a.ts: error".
Proof. reflexivity. Qed.

(** ** Properties of the object [allWorkerStates] *)

Lemma get_put_eq id w o : get_worker id (put_worker id w o) = Some w.
Proof.
  induction o as [|[k v] o IH]; simpl.
  - by rewrite String.eqb_refl.
  - destruct (String.eqb k id) eqn:E; simpl; rewrite E; [done | exact IH].
Qed.

Lemma get_put_ne id id' w o :
  id ≠ id' → get_worker id' (put_worker id w o) = get_worker id' o.
Proof.
  intros Hne. induction o as [|[k v] o IH]; simpl.
  - destruct (String.eqb_spec id id'); [done | reflexivity].
  - destruct (String.eqb_spec k id) as [->|Hk]; simpl.
    + destruct (String.eqb_spec id id'); [done | reflexivity].
    + destruct (String.eqb k id'); [reflexivity | exact IH].
Qed.

Lemma put_put id a b o :
  put_worker id a (put_worker id b o) = put_worker id a o.
Proof.
  induction o as [|[k v] o IH]; simpl.
  - by rewrite String.eqb_refl.
  - destruct (String.eqb k id) eqn:E; simpl; rewrite E; [done | by rewrite IH].
Qed.

(** Every entry of [put_worker id w o] is the new entry or an old one. *)
Lemma put_worker_Forall (P : string * WorkerState → Prop) id w o :
  P (id, w) → Forall P o → Forall P (put_worker id w o).
Proof.
  intros Hnew. induction 1 as [|[k v] o Hkv Ho IH]; simpl.
  - by constructor.
  - destruct (String.eqb_spec k id) as [->|Hk]; constructor; auto.
Qed.

Lemma insert_indexed_Forall {A} (P : A → Prop) i x (l : list (N * A)) :
  P x → Forall (λ e, P (snd e)) l → Forall (λ e, P (snd e)) (insert_indexed i x l).
Proof.
  intros Hx. induction 1 as [|[j y] l Hy Hl IH]; simpl.
  - by constructor.
  - destruct (i <=? j)%N; repeat constructor; auto.
Qed.

Lemma indexed_entries_Forall (P : string * WorkerState → Prop) o :
  Forall P o → Forall (λ e, P (snd e)) (indexed_entries o).
Proof.
  induction 1 as [|[k v] o Hkv Ho IH]; simpl; [constructor|].
  destruct (array_index k); [by apply insert_indexed_Forall | exact IH].
Qed.

Lemma named_entries_Forall (P : string * WorkerState → Prop) o :
  Forall P o → Forall P (named_entries o).
Proof.
  induction 1 as [|[k v] o Hkv Ho IH]; simpl; [constructor|].
  destruct (array_index k); [exact IH | by constructor].
Qed.

(** [Object.entries] lists only entries of the object. *)
Lemma Object_entries_Forall (P : string * WorkerState → Prop) o :
  Forall P o → Forall P (Object_entries o).
Proof.
  intros Ho. unfold Object_entries. apply Forall_app. split.
  - apply Forall_fmap. by apply indexed_entries_Forall.
  - by apply named_entries_Forall.
Qed.

Lemma insert_indexed_perm {A} i (x : A) (l : list (N * A)) :
  insert_indexed i x l ≡ₚ (i, x) :: l.
Proof.
  induction l as [|[j y] l IH]; simpl; [done|].
  destruct (i <=? j)%N; [done|]. rewrite IH. apply perm_swap.
Qed.

(** X25: the loop over [Object.entries(allWorkerStates)] visits every
    record exactly once: the entries it lists are a rearrangement of the
    entries of the object, none left out and none repeated. *)
Lemma Object_entries_perm o : Object_entries o ≡ₚ o.
Proof.
  unfold Object_entries. induction o as [|[k w] o IH]; simpl; [done|].
  destruct (array_index k) as [i|].
  - rewrite insert_indexed_perm. simpl. by rewrite IH.
  - rewrite <- Permutation_middle. by rewrite IH.
Qed.

(** Keys that are array indices come first, in numeric order; a key with a
    leading zero is not an array index. *)
Example Object_entries_order :
  map fst
    (Object_entries
       [ ("tsc", WORKER_BASE_STATE); ("10", WORKER_BASE_STATE);
         ("02", WORKER_BASE_STATE); ("2", WORKER_BASE_STATE) ])
  = ["2"; "10"; "tsc"; "02"].
Proof. reflexivity. Qed.

(** The loop over [plugins] creates zero-value records only. *)
Lemma register_plugins_base plugins :
  Forall (λ e, snd e = WORKER_BASE_STATE) (register_plugins plugins).
Proof.
  unfold register_plugins.
  enough (H : ∀ o, Forall (λ e : string * WorkerState, snd e = WORKER_BASE_STATE) o →
            Forall (λ e, snd e = WORKER_BASE_STATE)
              (fold_left (λ o plugin, put_worker plugin WORKER_BASE_STATE o)
                 plugins o))
    by (apply H; constructor).
  induction plugins as [|p ps IH]; intros o Ho; simpl; [exact Ho|].
  apply IH. by apply put_worker_Forall.
Qed.

Lemma get_worker_Forall (P : string * WorkerState → Prop) id w o :
  Forall P o → get_worker id o = Some w → P (id, w).
Proof.
  induction 1 as [|[k v] o Hkv Ho IH]; simpl; [done|].
  destruct (String.eqb_spec k id) as [->|Hk]; [by intros [= <-] | exact IH].
Qed.

(** ** The primitives of the handlers *)

Lemma setupWorker_Some id w m :
  WorkerStatus id m = Some w → setupWorker id m = Ok tt m.
Proof. unfold WorkerStatus, setupWorker. by intros ->. Qed.

Lemma setupWorker_None id m :
  WorkerStatus id m = None →
  setupWorker id m =
  Ok tt (set_allWorkerStates
           (put_worker id WORKER_BASE_STATE (allWorkerStates m)) m).
Proof. unfold WorkerStatus, setupWorker. by intros ->. Qed.

Lemma update_worker_Some id f w m :
  WorkerStatus id m = Some w →
  update_worker id f m =
  Ok tt (set_allWorkerStates (put_worker id (f w) (allWorkerStates m)) m).
Proof. unfold WorkerStatus, update_worker. by intros ->. Qed.

Lemma update_worker_None id f m :
  WorkerStatus id m = None → update_worker id f m = Throw TypeError m.
Proof. unfold WorkerStatus, update_worker. by intros ->. Qed.

Lemma WorkerStatus_put_eq id w o m :
  WorkerStatus id (set_allWorkerStates (put_worker id w o) m) = Some w.
Proof. apply get_put_eq. Qed.

Lemma WorkerStatus_put_ne id id' w o m :
  id ≠ id' →
  WorkerStatus id' (set_allWorkerStates (put_worker id w o) m)
  = get_worker id' o.
Proof. apply get_put_ne. Qed.

(** ** The handlers, one equation each *)

Lemma emit_WORKER_RESET id m :
  emit (WORKER_RESET id) m =
  let m' := set_allWorkerStates
              (put_worker id WORKER_BASE_STATE (allWorkerStates m)) m in
  Ok (screen m') m'.
Proof. reflexivity. Qed.

Lemma emit_WORKER_COMPLETE_Some id err w m :
  WorkerStatus id m = Some w →
  emit (WORKER_COMPLETE id err) m =
  let m' := set_allWorkerStates
              (put_worker id (completed err w) (allWorkerStates m)) m in
  Ok (screen m') m'.
Proof.
  intros Hw. unfold emit, on_WORKER_COMPLETE, mbind, M_bind.
  rewrite (update_worker_Some _ _ _ _ Hw).
  rewrite (update_worker_Some _ _ _ _ (WorkerStatus_put_eq _ _ _ _)).
  simpl allWorkerStates. rewrite put_put.
  rewrite (update_worker_Some _ _ _ _ (WorkerStatus_put_eq _ _ _ _)).
  simpl allWorkerStates. rewrite put_put.
  reflexivity.
Qed.

Lemma emit_WORKER_COMPLETE_None id err m :
  WorkerStatus id m = None →
  emit (WORKER_COMPLETE id err) m = Throw TypeError m.
Proof.
  intros Hw. unfold emit, on_WORKER_COMPLETE, mbind, M_bind.
  by rewrite (update_worker_None _ _ _ Hw).
Qed.

Lemma emit_WORKER_MSG_Some id msg w m :
  WorkerStatus id m = Some w →
  emit (WORKER_MSG id msg) m =
  let m' := set_allWorkerStates
              (put_worker id (set_output (output w ++ msg) w)
                 (allWorkerStates m)) m in
  Ok (screen m') m'.
Proof.
  intros Hw. unfold emit, on_WORKER_MSG, mbind, M_bind.
  rewrite (setupWorker_Some _ _ _ Hw), (update_worker_Some _ _ _ _ Hw).
  reflexivity.
Qed.

Lemma emit_WORKER_MSG_None id msg m :
  WorkerStatus id m = None →
  emit (WORKER_MSG id msg) m =
  let m' := set_allWorkerStates
              (put_worker id (set_output msg WORKER_BASE_STATE)
                 (allWorkerStates m)) m in
  Ok (screen m') m'.
Proof.
  intros Hw. unfold emit, on_WORKER_MSG, mbind, M_bind.
  rewrite (setupWorker_None _ _ Hw).
  rewrite (update_worker_Some _ _ _ _ (WorkerStatus_put_eq _ _ _ _)).
  simpl allWorkerStates. rewrite put_put. reflexivity.
Qed.

Lemma emit_WORKER_UPDATE_Some id st w m :
  WorkerStatus id m = Some w →
  emit (WORKER_UPDATE id st) m =
  let m' := set_allWorkerStates
              (put_worker id (set_state st w) (allWorkerStates m)) m in
  Ok (screen m') m'.
Proof.
  intros Hw. unfold emit, on_WORKER_UPDATE, mbind, M_bind.
  replace (negb (strict_eq (OString (typeof_state st)) OUndefined))
    with true by reflexivity.
  rewrite (setupWorker_Some _ _ _ Hw), (update_worker_Some _ _ _ _ Hw).
  reflexivity.
Qed.

Lemma emit_WORKER_UPDATE_None id st m :
  WorkerStatus id m = None →
  emit (WORKER_UPDATE id st) m =
  let m' := set_allWorkerStates
              (put_worker id (set_state st WORKER_BASE_STATE)
                 (allWorkerStates m)) m in
  Ok (screen m') m'.
Proof.
  intros Hw. unfold emit, on_WORKER_UPDATE, mbind, M_bind.
  replace (negb (strict_eq (OString (typeof_state st)) OUndefined))
    with true by reflexivity.
  rewrite (setupWorker_None _ _ Hw).
  rewrite (update_worker_Some _ _ _ _ (WorkerStatus_put_eq _ _ _ _)).
  simpl allWorkerStates. rewrite put_put. reflexivity.
Qed.

(** ** Worker events *)

(** [WORKER_MSG] and [WORKER_UPDATE] never throw: [setupWorker] creates the
    record they go on to use. *)
Lemma worker_msg_returns id msg m : throws (emit (WORKER_MSG id msg) m) = false.
Proof.
  destruct (WorkerStatus id m) as [w|] eqn:Hw.
  - by rewrite (emit_WORKER_MSG_Some _ _ _ _ Hw).
  - by rewrite (emit_WORKER_MSG_None _ _ _ Hw).
Qed.

Lemma worker_update_returns id st m :
  throws (emit (WORKER_UPDATE id st) m) = false.
Proof.
  destruct (WorkerStatus id m) as [w|] eqn:Hw.
  - by rewrite (emit_WORKER_UPDATE_Some _ _ _ _ Hw).
  - by rewrite (emit_WORKER_UPDATE_None _ _ _ Hw).
Qed.

(** The guard [typeof state !== undefined] compares a string with the value
    [undefined], so it holds for every payload: the assignment to [state]
    is always executed. *)
Lemma worker_update_always_assigns id st m :
  state <$> WorkerStatus id (step m (WORKER_UPDATE id st)) = Some st.
Proof.
  unfold step. destruct (WorkerStatus id m) as [w|] eqn:Hw.
  - rewrite (emit_WORKER_UPDATE_Some _ _ _ _ Hw). simpl.
    by rewrite WorkerStatus_put_eq.
  - rewrite (emit_WORKER_UPDATE_None _ _ _ Hw). simpl.
    by rewrite WorkerStatus_put_eq.
Qed.

(** C1, on the code: the worker [tsc] has the state [["RUNNING", "yellow"]];
    a [WORKER_UPDATE] event whose payload has no [state] field then replaces
    the stored state by [undefined] instead of leaving it unchanged. *)
Theorem worker_update_without_state_overwrites :
  let before :=
    run (initial ["tsc"]) [WORKER_UPDATE "tsc" (StPair "RUNNING" "yellow")] in
  let after := step before (WORKER_UPDATE "tsc" StUndefined) in
  state <$> WorkerStatus "tsc" before = Some (StPair "RUNNING" "yellow") ∧
  state <$> WorkerStatus "tsc" after = Some StUndefined.
Proof. split; reflexivity. Qed.

(** [WORKER_COMPLETE] does not call [setupWorker]: on an id without a record
    its first assignment throws and nothing is repainted. *)
Lemma worker_complete_missing_throws id err m :
  WorkerStatus id m = None →
  emit (WORKER_COMPLETE id err) m = Throw TypeError m.
Proof. apply emit_WORKER_COMPLETE_None. Qed.

(** C2, on the code: with [tsc] as the only registered worker, a
    [WORKER_COMPLETE] event for the id [eslint] raises [TypeError]; no record
    is created for [eslint] and no screen is written. *)
Theorem worker_complete_unknown_id_throws :
  let m := initial ["tsc"] in
  WorkerStatus "eslint" m = None ∧
  emit (WORKER_COMPLETE "eslint" ErrNull) m = Throw TypeError m ∧
  WorkerStatus "eslint" (step m (WORKER_COMPLETE "eslint" ErrNull)) = None ∧
  written (emit (WORKER_COMPLETE "eslint" ErrNull) m) = [].
Proof. repeat split. Qed.

(** C6: whatever the model holds for worker [w] (or if it holds nothing),
    [WORKER_RESET] for [w] returns normally and leaves [WorkerStatus(w)]
    equal to the zero-value record: empty output, [done = false],
    [error = null], [state = null]. *)
Theorem worker_reset_zero_value (w : string) (m : Model) :
  throws (emit (WORKER_RESET w) m) = false ∧
  WorkerStatus w (step m (WORKER_RESET w)) =
  Some {| done := false; state := StNull; error := ErrNull; output := "" |}.
Proof.
  split; [reflexivity|].
  unfold step. rewrite emit_WORKER_RESET. simpl. apply WorkerStatus_put_eq.
Qed.

(** A section that is drawn starts with its header, and the header is red
    exactly when the stored error is an array. *)
Lemma worker_section_header script w :
  truthy_string (output w) && negb (hideOutput script (output w)) = true →
  worker_section (script, w) =
  [ worker_header (if isArray (error w) then red else reset) script;
    Plain (indent_lines (trim (output w)));
    Plain blank_line ].
Proof. unfold worker_section. simpl. by intros ->. Qed.

(** C5, on the code: the worker [tsc] has printed [error TS1005] and has
    completed with an [Error]; its stored error is not null, and yet its
    section is drawn with the neutral header ([colors.reset]), not the red
    one. *)
Theorem error_header_not_red :
  let m :=
    run (initial ["tsc"])
      [ WORKER_MSG "tsc" "error TS1005";
        WORKER_COMPLETE "tsc" (ErrObject "exit code 2") ] in
  error <$> WorkerStatus "tsc" m = Some (ErrObject "exit code 2") ∧
  worker_sections m =
  [ worker_header reset "tsc"; Plain "error TS1005"; Plain blank_line ] ∧
  outer_style (worker_header reset "tsc") = Some reset.
Proof. repeat split. Qed.

(** A record, once created, is never removed; and every event other than a
    reset of [w] leaves a non-null error of [w] as it is. *)
Lemma step_keeps_record w ws m e :
  WorkerStatus w m = Some ws →
  ∃ ws', WorkerStatus w (step m e) = Some ws' ∧
         (e ≠ WORKER_RESET w → error ws ≠ ErrNull → error ws' = error ws).
Proof.
  intros Hw. unfold step. destruct e as [id b|id msg|id st|id err|id| | | | | |].
  - exists ws. split; [by destruct b | done].
  - destruct (decide (id = w)) as [->|Hne].
    + rewrite (emit_WORKER_MSG_Some _ _ _ _ Hw). simpl.
      rewrite WorkerStatus_put_eq. by eexists.
    + exists ws. split; [|done].
      destruct (WorkerStatus id m) as [v|] eqn:Hv.
      * rewrite (emit_WORKER_MSG_Some _ _ _ _ Hv). simpl.
        by rewrite WorkerStatus_put_ne.
      * rewrite (emit_WORKER_MSG_None _ _ _ Hv). simpl.
        by rewrite WorkerStatus_put_ne.
  - destruct (decide (id = w)) as [->|Hne].
    + rewrite (emit_WORKER_UPDATE_Some _ _ _ _ Hw). simpl.
      rewrite WorkerStatus_put_eq. by eexists.
    + exists ws. split; [|done].
      destruct (WorkerStatus id m) as [v|] eqn:Hv.
      * rewrite (emit_WORKER_UPDATE_Some _ _ _ _ Hv). simpl.
        by rewrite WorkerStatus_put_ne.
      * rewrite (emit_WORKER_UPDATE_None _ _ _ Hv). simpl.
        by rewrite WorkerStatus_put_ne.
  - destruct (decide (id = w)) as [->|Hne].
    + rewrite (emit_WORKER_COMPLETE_Some _ _ _ _ Hw). simpl.
      rewrite WorkerStatus_put_eq. eexists. split; [done|].
      intros _ Herr. simpl. unfold or_else.
      by destruct (error ws).
    + exists ws. split; [|done].
      destruct (WorkerStatus id m) as [v|] eqn:Hv.
      * rewrite (emit_WORKER_COMPLETE_Some _ _ _ _ Hv). simpl.
        by rewrite WorkerStatus_put_ne.
      * by rewrite (emit_WORKER_COMPLETE_None _ _ _ Hv).
  - rewrite emit_WORKER_RESET. simpl.
    destruct (decide (id = w)) as [->|Hne].
    + rewrite WorkerStatus_put_eq. eexists. split; [done | congruence].
    + exists ws. by rewrite WorkerStatus_put_ne.
  - by exists ws.
  - by exists ws.
  - by exists ws.
  - by exists ws.
  - by exists ws.
  - by exists ws.
Qed.

Lemma run_app m es1 es2 : run m (es1 ++ es2) = run (run m es1) es2.
Proof. apply fold_left_app. Qed.

Lemma run_cons m e es : run m (e :: es) = run (step m e) es.
Proof. reflexivity. Qed.

Lemma run_keeps_error w ws m es :
  WorkerStatus w m = Some ws → error ws ≠ ErrNull →
  Forall (λ ev, ev ≠ WORKER_RESET w) es →
  ∃ ws', WorkerStatus w (run m es) = Some ws' ∧ error ws' = error ws.
Proof.
  intros Hw Herr Hes. revert m ws Hw Herr.
  induction Hes as [|e es He Hes IH]; intros m ws Hw Herr; simpl.
  - by exists ws.
  - destruct (step_keeps_record w ws m e Hw) as (ws1 & Hw1 & Hkeep).
    specialize (Hkeep He Herr).
    destruct (IH (step m e) ws1 Hw1) as (ws' & Hw' & Heq); [congruence|].
    exists ws'. split; [done | congruence].
Qed.

(** A [WORKER_COMPLETE] event that carries no error never changes the
    stored error of an existing record: [error || null] is [error]. *)
Lemma worker_complete_null_keeps_error w ws m :
  WorkerStatus w m = Some ws →
  error <$> WorkerStatus w (step m (WORKER_COMPLETE w ErrNull))
  = Some (error ws).
Proof.
  intros Hw. unfold step. rewrite (emit_WORKER_COMPLETE_Some _ _ _ _ Hw).
  simpl. rewrite WorkerStatus_put_eq. simpl. unfold or_else.
  by destruct (error ws).
Qed.

(** C3: a [WORKER_COMPLETE] event sets the non-null error [e] on a record of
    [w] that had none.  After any further events that do not reset [w], in
    particular after any number of [WORKER_COMPLETE] events for [w] with
    [error = null], the stored error is still [e]; and a further
    [WORKER_COMPLETE] for [w] does not throw. *)
Theorem sticky_error (w : string) (e : ErrorVal) (m : Model)
    (ws : WorkerState) (es : list Event) :
  WorkerStatus w m = Some ws → error ws = ErrNull → e ≠ ErrNull →
  Forall (λ ev, ev ≠ WORKER_RESET w) es →
  error <$> WorkerStatus w (step m (WORKER_COMPLETE w e)) = Some e ∧
  error <$> WorkerStatus w (run m (WORKER_COMPLETE w e :: es)) = Some e ∧
  error <$> WorkerStatus w
    (run m (WORKER_COMPLETE w e :: es ++ [WORKER_COMPLETE w ErrNull]))
  = Some e ∧
  throws (emit (WORKER_COMPLETE w ErrNull) (run m (WORKER_COMPLETE w e :: es)))
  = false.
Proof.
  intros Hw Hnull He Hes.
  assert (H1 : WorkerStatus w (step m (WORKER_COMPLETE w e))
               = Some (completed e ws)).
  { unfold step. rewrite (emit_WORKER_COMPLETE_Some _ _ _ _ Hw). simpl.
    apply WorkerStatus_put_eq. }
  assert (Herr : error (completed e ws) = e).
  { simpl. by rewrite Hnull. }
  destruct (run_keeps_error w _ _ es H1) as (ws' & Hw' & Heq);
    [congruence | done |].
  rewrite !run_cons, run_app, Hw', H1. simpl run.
  change (fold_left step [?ev] ?x) with (step x ev).
  rewrite (worker_complete_null_keeps_error _ _ _ Hw').
  rewrite (emit_WORKER_COMPLETE_Some _ _ _ _ Hw'). simpl.
  change (or_else (error ws) e) with (error (completed e ws)).
  by rewrite Heq, Herr.
Qed.

(** ** What one event changes *)

(** Every handler touches one group of variables only. *)
Lemma step_frame m e :
  match e with
  | INFO args | WARN args | ERROR args =>
      step m e = set_consoleOutput (consoleOutput m ++ [args]) m
  | BUILD_FILE id isBuilding =>
      step m e =
      set_allFileBuilds
        (if isBuilding then {[path_relative cwd id]} ∪ allFileBuilds m
         else allFileBuilds m ∖ {[path_relative cwd id]}) m
  | SERVER_START info => step m e = set_server info m
  | NEW_SESSION | SERVER_RESPONSE => step m e = m
  | WORKER_MSG _ _ | WORKER_UPDATE _ _ | WORKER_COMPLETE _ _
  | WORKER_RESET _ => ∃ o, step m e = set_allWorkerStates o m
  end.
Proof.
  unfold step. destruct e as [id b|id msg|id st|id err|id| | | | | |];
    try reflexivity.
  - by destruct b.
  - destruct (WorkerStatus id m) as [v|] eqn:Hv.
    + rewrite (emit_WORKER_MSG_Some _ _ _ _ Hv). by eexists.
    + rewrite (emit_WORKER_MSG_None _ _ _ Hv). by eexists.
  - destruct (WorkerStatus id m) as [v|] eqn:Hv.
    + rewrite (emit_WORKER_UPDATE_Some _ _ _ _ Hv). by eexists.
    + rewrite (emit_WORKER_UPDATE_None _ _ _ Hv). by eexists.
  - destruct (WorkerStatus id m) as [v|] eqn:Hv.
    + rewrite (emit_WORKER_COMPLETE_Some _ _ _ _ Hv). by eexists.
    + rewrite (emit_WORKER_COMPLETE_None _ _ _ Hv).
      exists (allWorkerStates m). by destruct m.
  - rewrite emit_WORKER_RESET. by eexists.
Qed.

(** A handler either repaints the model it leaves behind, or writes
    nothing (it threw, or the event has no subscriber). *)
Lemma emit_written m e :
  written (emit e m) = screen (step m e) ∨ written (emit e m) = [].
Proof.
  unfold step. destruct e as [id b|id msg|id st|id err|id| | | | | |];
    try (by left); try (by right).
  - left. by destruct b.
  - left. destruct (WorkerStatus id m) as [v|] eqn:Hv.
    + by rewrite (emit_WORKER_MSG_Some _ _ _ _ Hv).
    + by rewrite (emit_WORKER_MSG_None _ _ _ Hv).
  - left. destruct (WorkerStatus id m) as [v|] eqn:Hv.
    + by rewrite (emit_WORKER_UPDATE_Some _ _ _ _ Hv).
    + by rewrite (emit_WORKER_UPDATE_None _ _ _ Hv).
  - destruct (WorkerStatus id m) as [v|] eqn:Hv.
    + left. by rewrite (emit_WORKER_COMPLETE_Some _ _ _ _ Hv).
    + right. by rewrite (emit_WORKER_COMPLETE_None _ _ _ Hv).
Qed.

(** ** The set of files being built *)

Lemma count_occ_NoDup (l : list string) (x : string) :
  NoDup l → x ∈ l → count_occ string_dec l x = 1.
Proof.
  intros Hnd Hx. apply NoDup_ListNoDup in Hnd.
  apply (proj1 (List.NoDup_count_occ' string_dec l) Hnd).
  by apply list_elem_of_In.
Qed.

(** C7: two consecutive [BUILD_FILE] events with [isBuilding = true] for
    the same file leave its path in the set exactly once, the second event
    changing nothing; and a [BUILD_FILE] event with [isBuilding = false]
    for a path that is not in the set leaves every variable as it was. *)
Theorem buildset_idempotent (id : string) (m : Model) :
  let p := path_relative cwd id in
  let m1 := step m (BUILD_FILE id true) in
  let m2 := step m1 (BUILD_FILE id true) in
  (p ∈ allFileBuilds m2 ∧
   count_occ string_dec (elements (allFileBuilds m2)) p = 1 ∧
   m2 = m1) ∧
  (p ∉ allFileBuilds m → step m (BUILD_FILE id false) = m).
Proof.
  intros p m1 m2. split.
  - assert (Hin : p ∈ allFileBuilds m2)
      by (apply elem_of_union_l, elem_of_singleton; reflexivity).
    split; [exact Hin|]. split.
    + apply count_occ_NoDup; [apply NoDup_elements | by apply elem_of_elements].
    + subst m2 m1. rewrite !(step_frame _ (BUILD_FILE id true)).
      fold p. unfold set_allFileBuilds. simpl. f_equal.
      apply set_eq. intros x. rewrite !elem_of_union. tauto.
  - intros Hp. rewrite (step_frame _ (BUILD_FILE id false)). fold p.
    replace (allFileBuilds m ∖ {[p]}) with (allFileBuilds m); [by destruct m|].
    apply set_eq. intros x. rewrite elem_of_difference, elem_of_singleton.
    split; [|tauto]. intros Hx. split; [done | congruence].
Qed.

(** ** The console log *)

Lemma step_console m e :
  consoleOutput (step m e) = (consoleOutput m ++ logged e)%list.
Proof.
  pose proof (step_frame m e) as H.
  destruct e; simpl logged;
    repeat match goal with
           | Hex : ∃ _, _ |- _ => destruct Hex as [? H]
           end;
    rewrite H; simpl; by rewrite ?app_nil_r.
Qed.

Lemma run_console m es :
  consoleOutput (run m es) = (consoleOutput m ++ flat_map logged es)%list.
Proof.
  revert m. induction es as [|e es IH]; intros m; simpl.
  - by rewrite app_nil_r.
  - fold (run (step m e) es). by rewrite IH, step_console, <- app_assoc.
Qed.

(** C9: each of [INFO], [WARN] and [ERROR] appends exactly one entry, its
    [args], to the console log; no event of any kind removes or changes an
    entry that is already there; hence along every sequence of events the
    log only grows: what it holds after a prefix of the sequence is a
    prefix of what it holds after the whole sequence, and its length never
    decreases. *)
Theorem console_append_only (m : Model) (args : string) (e : Event)
    (es1 es2 : list Event) :
  consoleOutput (step m (INFO args)) = (consoleOutput m ++ [args])%list ∧
  consoleOutput (step m (WARN args)) = (consoleOutput m ++ [args])%list ∧
  consoleOutput (step m (ERROR args)) = (consoleOutput m ++ [args])%list ∧
  length (consoleOutput (step m (INFO args))) = S (length (consoleOutput m)) ∧
  length (consoleOutput (step m (WARN args))) = S (length (consoleOutput m)) ∧
  length (consoleOutput (step m (ERROR args))) = S (length (consoleOutput m)) ∧
  consoleOutput m `prefix_of` consoleOutput (step m e) ∧
  (length (consoleOutput m) ≤ length (consoleOutput (step m e)))%nat ∧
  consoleOutput (run m es1) `prefix_of` consoleOutput (run m (es1 ++ es2)) ∧
  (length (consoleOutput (run m es1))
   ≤ length (consoleOutput (run m (es1 ++ es2))))%nat.
Proof.
  rewrite !step_console, run_app, (run_console (run m es1) es2).
  simpl logged. rewrite !length_app. simpl.
  repeat split; try lia; by apply prefix_app_r.
Qed.

(** ** The install section *)

Lemma step_install m e :
  isInstalling (step m e) = isInstalling m ∧
  installOutput (step m e) = installOutput m.
Proof.
  pose proof (step_frame m e) as H.
  destruct e;
    repeat match goal with
           | Hex : ∃ _, _ |- _ => destruct Hex as [? H]
           end;
    by rewrite H.
Qed.

Lemma run_install m es :
  isInstalling (run m es) = isInstalling m ∧
  installOutput (run m es) = installOutput m.
Proof.
  revert m. induction es as [|e es IH]; intros m; [done|].
  rewrite run_cons. destruct (IH (step m e)) as [-> ->]. apply step_install.
Qed.

(** The header of the install section is unlike every other write of
    [repaint]: while [isInstalling] is [false] it is not on the screen. *)
Lemma install_header_absent m :
  isInstalling m = false → install_header ∉ screen m.
Proof.
  intros Hoff. unfold screen, install_section. rewrite Hoff, app_nil_r.
  rewrite elem_of_cons, !elem_of_app. intros [H|[H|[H|H]]].
  - unfold clear_page in H. by destruct (String.eqb platform "win32").
  - unfold console_section in H.
    destruct (negb (Nat.eqb (length (consoleOutput m)) 0)).
    + rewrite !elem_of_cons, elem_of_nil in H.
      destruct H as [H|[H|[H|[]]]]; discriminate H.
    + by apply elem_of_nil in H.
  - unfold worker_sections in H. apply list_elem_of_In, in_flat_map in H.
    destruct H as ([script w] & _ & H). unfold worker_section in H. simpl in H.
    destruct (truthy_string (output w) && negb (hideOutput script (output w)));
      [|done].
    destruct (isArray (error w)); destruct H as [H|[H|[H|[]]]]; discriminate H.
  - unfold dashboard in H. destruct (isServerStarted m).
    + destruct (Nat.ltb 0 (size (allFileBuilds m))); simpl in H;
        rewrite ?elem_of_cons, elem_of_nil in H;
        [destruct H as [H|[H|[]]] | destruct H as [H|[]]]; discriminate H.
    + rewrite elem_of_cons, elem_of_nil in H. destruct H as [H|[]].
      discriminate H.
Qed.

Lemma screens_install_header_absent m es :
  isInstalling m = false →
  Forall (λ scr, install_header ∉ scr) (screens m es).
Proof.
  revert m. induction es as [|e es IH]; intros m Hoff; simpl; constructor.
  - destruct (emit_written m e) as [-> | ->].
    + apply install_header_absent. by rewrite (proj1 (step_install m e)).
    + apply not_elem_of_nil.
  - apply IH. by rewrite (proj1 (step_install m e)).
Qed.

(** C10: [isInstalling] starts as [false] and [installOutput] as the empty
    string, and no event changes either; so after every sequence of events
    the flag is still [false], the output still empty, the install section
    of [repaint] empty, and no screen written so far, the first one
    included, shows the install header. *)
Theorem install_section_never_drawn (plugins : list string)
    (es : list Event) :
  isInstalling (initial plugins) = false ∧
  installOutput (initial plugins) = "" ∧
  isInstalling (run (initial plugins) es) = false ∧
  installOutput (run (initial plugins) es) = "" ∧
  install_section (run (initial plugins) es) = [] ∧
  Forall (λ scr, install_header ∉ scr) (paint plugins es).
Proof.
  destruct (run_install (initial plugins) es) as [Hflag Hout].
  unfold install_section. rewrite Hflag, Hout.
  repeat split. unfold paint. constructor.
  - by apply install_header_absent.
  - by apply screens_install_header_absent.
Qed.

(** ** Scenarios from the initial model *)

Lemma flat_map_nil {A B} (f : A → list B) (l : list A) :
  Forall (λ x, f x = []) l → flat_map f l = [].
Proof. induction 1 as [|x l Hx Hl IH]; simpl; [done | by rewrite Hx, IH]. Qed.

(** A worker that has printed nothing has no section. *)
Lemma worker_sections_base o m :
  Forall (λ e, snd e = WORKER_BASE_STATE) o →
  worker_sections (set_allWorkerStates o m) = [].
Proof.
  intros Ho. unfold worker_sections. simpl. apply flat_map_nil.
  apply Object_entries_Forall. eapply Forall_impl; [exact Ho|].
  intros [k w] Hw. simpl in Hw. subst w. reflexivity.
Qed.

Lemma initial_WorkerStatus plugins id w :
  WorkerStatus id (initial plugins) = Some w → w = WORKER_BASE_STATE.
Proof.
  intros Hw.
  exact (get_worker_Forall (λ e, snd e = WORKER_BASE_STATE) id w _
           (register_plugins_base plugins) Hw).
Qed.

(** C8: from the initial model, whatever the registered plugins,
    [WORKER_MSG {id: "tsc", msg: "Found 0 errors."}] returns normally and
    leaves the output of [tsc] equal to the message, hence non-empty;
    [hideOutput] holds for it, so the entry of [tsc] contributes no write,
    no worker section at all is drawn, and the screen consists of the clear
    sequence and the loading line. *)
Theorem tsc_zero_errors_hidden (plugins : list string) :
  let r := emit (WORKER_MSG "tsc" "Found 0 errors.") (initial plugins) in
  let m := model_after r in
  throws r = false ∧
  output <$> WorkerStatus "tsc" m = Some "Found 0 errors." ∧
  truthy_string "Found 0 errors." = true ∧
  hideOutput "tsc" "Found 0 errors." = true ∧
  (∀ w, WorkerStatus "tsc" m = Some w → worker_section ("tsc", w) = []) ∧
  worker_sections m = [] ∧
  written r = [clear_page; loading_line].
Proof.
  set (shown := set_output "Found 0 errors." WORKER_BASE_STATE).
  remember (set_allWorkerStates
              (put_worker "tsc" shown (allWorkerStates (initial plugins)))
              (initial plugins)) as m' eqn:Hm'.
  assert (Hr : emit (WORKER_MSG "tsc" "Found 0 errors.") (initial plugins)
               = Ok (screen m') m').
  { subst m'. destruct (WorkerStatus "tsc" (initial plugins)) as [w|] eqn:Hw.
    - rewrite (emit_WORKER_MSG_Some _ _ _ _ Hw).
      by rewrite (initial_WorkerStatus _ _ _ Hw).
    - by rewrite (emit_WORKER_MSG_None _ _ _ Hw). }
  assert (Hnone : worker_sections m' = []).
  { subst m'. unfold worker_sections. simpl. apply flat_map_nil.
    apply Object_entries_Forall, put_worker_Forall; [reflexivity|].
    eapply Forall_impl; [apply register_plugins_base|].
    intros [k w] Hw. simpl in Hw. subst w. reflexivity. }
  assert (Hw : WorkerStatus "tsc" m' = Some shown)
    by (subst m'; apply WorkerStatus_put_eq).
  intros r m. subst m r. rewrite Hr.
  unfold model_after, written, throws. rewrite Hw.
  split; [done|]. split; [done|]. split; [done|]. split; [done|].
  split; [by intros w [= <-]|]. split; [exact Hnone|].
  unfold screen. rewrite Hnone. subst m'. reflexivity.
Qed.

(** The status bar is the ready line only if [startTimeMs > 0],
    [port > 0] and [protocol] is not empty. *)
Lemma dashboard_loading m : isServerStarted m = false → dashboard m = [loading_line].
Proof. unfold dashboard. by intros ->. Qed.

(** C4, as the code has it: from the initial model, whatever the registered
    plugins, the event [SERVER_START {startTimeMs: t, port: 8080,
    hostname: "localhost", protocol: "http://", ips: ["192.168.1.5"]}] with
    [t > 0] produces a screen that consists of the clear sequence and the
    ready line [localhost:8080 › 192.168.1.5]; the set of builds is empty,
    and neither the building indicator nor the loading line is written. *)
Theorem server_start_shows_ready (plugins : list string) (t : Z) :
  (0 < t)%Z →
  let r := emit (SERVER_START (scenario_info_at t)) (initial plugins) in
  allFileBuilds (initial plugins) = ∅ ∧
  written r =
  [ clear_page;
    Cat snowpack_badge
      (Cat ready_badge (Plain " localhost:8080 › 192.168.1.5")) ] ∧
  (building_indicator ∉ written r) ∧
  (loading_line ∉ written r).
Proof.
  intros Ht r.
  assert (Hr : written r =
               [ clear_page;
                 Cat snowpack_badge
                   (Cat ready_badge (Plain " localhost:8080 › 192.168.1.5")) ]).
  { subst r. simpl written. unfold screen.
    change (worker_sections (set_server (scenario_info_at t) (initial plugins)))
      with (worker_sections
              (set_allWorkerStates (register_plugins plugins)
                 (set_server (scenario_info_at t) (initial plugins)))).
    rewrite worker_sections_base by apply register_plugins_base.
    unfold dashboard, isServerStarted. simpl.
    replace (0 <? t)%Z with true by (symmetry; by apply Z.ltb_lt).
    reflexivity. }
  split; [reflexivity|]. split; [exact Hr|]. rewrite Hr.
  unfold clear_page.
  split; rewrite !elem_of_cons, elem_of_nil;
    destruct (String.eqb platform "win32"); intros [H|[H|[]]]; discriminate H.
Qed.

(** ** More on strings: [includes] and the hiding rule *)

Lemma string_app_cons x (a b : string) : String x a ++ b = String x (a ++ b).
Proof. reflexivity. Qed.

Lemma string_app_assoc (a b c : string) : (a ++ b) ++ c = a ++ (b ++ c).
Proof.
  induction a as [|x a IH]; [done|]. rewrite !string_app_cons. by rewrite IH.
Qed.

Lemma string_app_nil_r (a : string) : a ++ "" = a.
Proof.
  induction a as [|x a IH]; [done|]. rewrite string_app_cons. by rewrite IH.
Qed.

Lemma string_app_length (a b : string) :
  String.length (a ++ b) = String.length a + String.length b.
Proof.
  induction a as [|x a IH]; [done|]. rewrite string_app_cons. simpl.
  by rewrite IH.
Qed.

Lemma prefix_spec needle hay :
  String.prefix needle hay = true ↔ ∃ post, hay = needle ++ post.
Proof.
  revert hay. induction needle as [|a needle IH]; intros hay.
  - split; [by exists hay | by destruct hay].
  - destruct hay as [|b hay].
    + split; [done | intros (post & Hpost); discriminate Hpost].
    + simpl. destruct (ascii_dec a b) as [->|Hne].
      * rewrite IH. split; intros (post & Hpost); exists post.
        -- rewrite string_app_cons. by rewrite Hpost.
        -- rewrite string_app_cons in Hpost. congruence.
      * split; [done|]. intros (post & Hpost).
        rewrite string_app_cons in Hpost. congruence.
Qed.

Lemma includes_unfold hay needle :
  includes hay needle =
  String.prefix needle hay ||
  match hay with
  | EmptyString => false
  | String _ rest => includes rest needle
  end.
Proof. by destruct hay. Qed.

Lemma includes_occurs (hay needle : string) :
  includes hay needle = true ↔ ∃ pre post, hay = pre ++ needle ++ post.
Proof.
  induction hay as [|c hay IH];
    rewrite includes_unfold, orb_true_iff, prefix_spec.
  - split.
    + intros [(post & Hpost) | ?]; [|done]. by exists "", post.
    + intros (pre & post & H). left.
      destruct pre; [by exists post | discriminate H].
  - rewrite IH. split.
    + intros [(post & Hpost) | (pre & post & ->)]; [by exists "", post|].
      by exists (String c pre), post.
    + intros (pre & post & H). destruct pre as [|x pre].
      * left. by exists post.
      * right. exists pre, post. rewrite string_app_cons in H. congruence.
Qed.

(** X1: [includes] holds exactly when the needle occurs somewhere in the
    string: the string is some text, the needle, and some more text. *)
Theorem includes_spec (hay needle : string) :
  includes hay needle = true ↔ ∃ pre post, hay = pre ++ needle ++ post.
Proof. apply includes_occurs. Qed.

Lemma includes_app_l a b needle :
  includes a needle = true → includes (a ++ b) needle = true.
Proof.
  rewrite !includes_occurs. intros (pre & post & ->).
  exists pre, (post ++ b). by rewrite !string_app_assoc.
Qed.

Lemma hideOutput_app cmd out more :
  hideOutput cmd out = true → hideOutput cmd (out ++ more) = true.
Proof.
  unfold hideOutput.
  destruct (String.eqb cmd "svelte-check"); [apply includes_app_l|].
  destruct (String.eqb cmd "tsc"); [apply includes_app_l | done].
Qed.

(** ** How a record evolves *)

Lemma messages_for_cons w e es :
  messages_for w (e :: es) = messages_for w [e] ++ messages_for w es.
Proof.
  destruct e; simpl; try done.
  destruct (String.eqb id w); [|done].
  by rewrite string_app_nil_r.
Qed.

(** What an event other than a reset of [w] does to the output and the
    [done] flag of [w]. *)
Lemma step_record w ws m e :
  WorkerStatus w m = Some ws → e ≠ WORKER_RESET w →
  ∃ ws', WorkerStatus w (step m e) = Some ws' ∧
         output ws' = output ws ++ messages_for w [e] ∧
         (done ws = true → done ws' = true).
Proof.
  intros Hw Hreset.
  assert (Hsame : ∀ m', WorkerStatus w m' = Some ws →
            ∃ ws', WorkerStatus w m' = Some ws' ∧
                   output ws' = output ws ++ "" ∧
                   (done ws = true → done ws' = true)).
  { intros m' Hm'. exists ws. by rewrite string_app_nil_r. }
  unfold step. destruct e as [id b|id msg|id st|id err|id| | | | | |];
    simpl messages_for; try (by apply Hsame).
  - apply Hsame. by destruct b.
  - destruct (String.eqb_spec id w) as [->|Hne].
    + rewrite (emit_WORKER_MSG_Some _ _ _ _ Hw). simpl.
      rewrite WorkerStatus_put_eq. eexists. split; [done|]. simpl.
      by rewrite string_app_nil_r.
    + apply Hsame. destruct (WorkerStatus id m) as [v|] eqn:Hv.
      * rewrite (emit_WORKER_MSG_Some _ _ _ _ Hv). simpl.
        by rewrite WorkerStatus_put_ne.
      * rewrite (emit_WORKER_MSG_None _ _ _ Hv). simpl.
        by rewrite WorkerStatus_put_ne.
  - destruct (decide (id = w)) as [->|Hne].
    + rewrite (emit_WORKER_UPDATE_Some _ _ _ _ Hw). simpl.
      rewrite WorkerStatus_put_eq. eexists. split; [done|]. simpl.
      by rewrite string_app_nil_r.
    + apply Hsame. destruct (WorkerStatus id m) as [v|] eqn:Hv.
      * rewrite (emit_WORKER_UPDATE_Some _ _ _ _ Hv). simpl.
        by rewrite WorkerStatus_put_ne.
      * rewrite (emit_WORKER_UPDATE_None _ _ _ Hv). simpl.
        by rewrite WorkerStatus_put_ne.
  - destruct (decide (id = w)) as [->|Hne].
    + rewrite (emit_WORKER_COMPLETE_Some _ _ _ _ Hw). simpl.
      rewrite WorkerStatus_put_eq. eexists. split; [done|]. simpl.
      by rewrite string_app_nil_r.
    + apply Hsame. destruct (WorkerStatus id m) as [v|] eqn:Hv.
      * rewrite (emit_WORKER_COMPLETE_Some _ _ _ _ Hv). simpl.
        by rewrite WorkerStatus_put_ne.
      * by rewrite (emit_WORKER_COMPLETE_None _ _ _ Hv).
  - apply Hsame. rewrite emit_WORKER_RESET. simpl.
    rewrite WorkerStatus_put_ne; [done | congruence].
Qed.

Lemma run_record w ws m es :
  WorkerStatus w m = Some ws → Forall (λ ev, ev ≠ WORKER_RESET w) es →
  ∃ ws', WorkerStatus w (run m es) = Some ws' ∧
         output ws' = output ws ++ messages_for w es ∧
         (done ws = true → done ws' = true).
Proof.
  intros Hw Hes. revert m ws Hw.
  induction Hes as [|e es He Hes IH]; intros m ws Hw.
  - exists ws. by rewrite string_app_nil_r.
  - destruct (step_record w ws m e Hw He) as (ws1 & Hw1 & Hout1 & Hdone1).
    destruct (IH (step m e) ws1 Hw1) as (ws' & Hw' & Hout & Hdone).
    exists ws'. rewrite run_cons, messages_for_cons. split; [done|].
    split; [by rewrite Hout, Hout1, string_app_assoc | auto].
Qed.

(** X2: the output of a worker is append-only between resets: after any
    events that do not reset [w], its output is the old output followed by
    the messages that the [WORKER_MSG] events of the sequence sent to [w],
    in order; nothing else changes it. *)
Theorem output_accumulates (w : string) (ws : WorkerState) (m : Model)
    (es : list Event) :
  WorkerStatus w m = Some ws → Forall (λ ev, ev ≠ WORKER_RESET w) es →
  output <$> WorkerStatus w (run m es)
  = Some (output ws ++ messages_for w es).
Proof.
  intros Hw Hes.
  destruct (run_record w ws m es Hw Hes) as (ws' & Hw' & Hout & _).
  rewrite Hw'. simpl. by rewrite Hout.
Qed.

(** X3: a worker that is done stays done, whatever it prints and whatever
    updates arrive, until it is reset. *)
Theorem done_until_reset (w : string) (ws : WorkerState) (m : Model)
    (es : list Event) :
  WorkerStatus w m = Some ws → done ws = true →
  Forall (λ ev, ev ≠ WORKER_RESET w) es →
  done <$> WorkerStatus w (run m es) = Some true.
Proof.
  intros Hw Hdone Hes.
  destruct (run_record w ws m es Hw Hes) as (ws' & -> & _ & Hd).
  simpl. by rewrite Hd.
Qed.

(** X4: the hiding rule looks at the whole accumulated output, so a worker
    whose output is hidden stays hidden whatever it prints afterwards:
    after any events that do not reset it, its entry still draws nothing. *)
Theorem hidden_until_reset (w : string) (ws : WorkerState) (m : Model)
    (es : list Event) :
  WorkerStatus w m = Some ws → hideOutput w (output ws) = true →
  Forall (λ ev, ev ≠ WORKER_RESET w) es →
  ∃ ws', WorkerStatus w (run m es) = Some ws' ∧
         output ws' = output ws ++ messages_for w es ∧
         worker_section (w, ws') = [].
Proof.
  intros Hw Hhide Hes.
  destruct (run_record w ws m es Hw Hes) as (ws' & Hw' & Hout & _).
  exists ws'. split; [done|]. split; [done|].
  unfold worker_section. simpl. rewrite Hout.
  rewrite (hideOutput_app _ _ _ Hhide). by rewrite andb_false_r.
Qed.

(** X5: an event addressed to one worker, or to none, leaves the records
    of all other workers as they are, also when its handler throws. *)
Theorem other_workers_untouched (w : string) (m : Model) (e : Event) :
  event_worker e ≠ Some w →
  WorkerStatus w (step m e) = WorkerStatus w m.
Proof.
  intros Hother. unfold step.
  destruct e as [id b|id msg|id st|id err|id| | | | | |]; try done.
  - by destruct b.
  - assert (Hne : id ≠ w) by (simpl in Hother; congruence).
    destruct (WorkerStatus id m) as [v|] eqn:Hv.
    + rewrite (emit_WORKER_MSG_Some _ _ _ _ Hv). simpl.
      by rewrite WorkerStatus_put_ne.
    + rewrite (emit_WORKER_MSG_None _ _ _ Hv). simpl.
      by rewrite WorkerStatus_put_ne.
  - assert (Hne : id ≠ w) by (simpl in Hother; congruence).
    destruct (WorkerStatus id m) as [v|] eqn:Hv.
    + rewrite (emit_WORKER_UPDATE_Some _ _ _ _ Hv). simpl.
      by rewrite WorkerStatus_put_ne.
    + rewrite (emit_WORKER_UPDATE_None _ _ _ Hv). simpl.
      by rewrite WorkerStatus_put_ne.
  - assert (Hne : id ≠ w) by (simpl in Hother; congruence).
    destruct (WorkerStatus id m) as [v|] eqn:Hv.
    + rewrite (emit_WORKER_COMPLETE_Some _ _ _ _ Hv). simpl.
      by rewrite WorkerStatus_put_ne.
    + by rewrite (emit_WORKER_COMPLETE_None _ _ _ Hv).
  - assert (Hne : id ≠ w) by (simpl in Hother; congruence).
    rewrite emit_WORKER_RESET. simpl. by rewrite WorkerStatus_put_ne.
Qed.

(** ** The keys of [allWorkerStates] *)

Lemma get_worker_None id o : get_worker id o = None ↔ id ∉ map fst o.
Proof.
  induction o as [|[k v] o IH]; simpl.
  - split; [intros _; apply not_elem_of_nil | done].
  - rewrite not_elem_of_cons. destruct (String.eqb_spec k id) as [->|Hk].
    + split; [done | by intros [? _]].
    + rewrite IH. split; [by intros ? | by intros [_ ?]].
Qed.

Lemma put_worker_keys id w o :
  map fst (put_worker id w o) =
  match get_worker id o with
  | Some _ => map fst o
  | None => (map fst o ++ [id])%list
  end.
Proof.
  induction o as [|[k v] o IH]; simpl; [done|].
  destruct (String.eqb k id); simpl; [done|].
  rewrite IH. by destruct (get_worker id o).
Qed.


Lemma put_worker_keys_NoDup id w o :
  NoDup (map fst o) → NoDup (map fst (put_worker id w o)).
Proof.
  intros Hnd. rewrite put_worker_keys.
  destruct (get_worker id o) eqn:Hget; [done|].
  apply NoDup_app. split; [done|]. split; [|apply NoDup_singleton].
  intros x Hx Hid. apply list_elem_of_singleton in Hid. subst x.
  by apply get_worker_None in Hget.
Qed.

(** An event leaves the object as it is or assigns one record. *)
Lemma step_workers m e :
  allWorkerStates (step m e) = allWorkerStates m ∨
  ∃ id w, allWorkerStates (step m e) = put_worker id w (allWorkerStates m).
Proof.
  unfold step. destruct e as [id b|id msg|id st|id err|id| | | | | |];
    try (by left).
  - left. by destruct b.
  - right. destruct (WorkerStatus id m) as [v|] eqn:Hv.
    + rewrite (emit_WORKER_MSG_Some _ _ _ _ Hv). by eexists _, _.
    + rewrite (emit_WORKER_MSG_None _ _ _ Hv). by eexists _, _.
  - right. destruct (WorkerStatus id m) as [v|] eqn:Hv.
    + rewrite (emit_WORKER_UPDATE_Some _ _ _ _ Hv). by eexists _, _.
    + rewrite (emit_WORKER_UPDATE_None _ _ _ Hv). by eexists _, _.
  - destruct (WorkerStatus id m) as [v|] eqn:Hv.
    + right. rewrite (emit_WORKER_COMPLETE_Some _ _ _ _ Hv). by eexists _, _.
    + left. by rewrite (emit_WORKER_COMPLETE_None _ _ _ Hv).
  - right. rewrite emit_WORKER_RESET. by eexists _, _.
Qed.


Lemma register_plugins_NoDup plugins : NoDup (map fst (register_plugins plugins)).
Proof.
  unfold register_plugins.
  enough (H : ∀ o : list (string * WorkerState), NoDup (map fst o) →
            NoDup (map fst
              (fold_left (λ o plugin, put_worker plugin WORKER_BASE_STATE o)
                 plugins o)))
    by (apply H; constructor).
  induction plugins as [|p ps IH]; intros o Ho; simpl; [done|].
  by apply IH, put_worker_keys_NoDup.
Qed.

(** X7: no worker ever has two records: from the start of [paint], with
    any list of plugins (repeated names included) and after any events, the
    keys of [allWorkerStates] are pairwise different. *)
Theorem worker_keys_unique (plugins : list string) (es : list Event) :
  NoDup (worker_keys (run (initial plugins) es)).
Proof.
  assert (H : ∀ m, NoDup (worker_keys m) → NoDup (worker_keys (run m es))).
  { induction es as [|e es IH]; intros m Hm; [done|].
    rewrite run_cons. apply IH. unfold worker_keys in *.
    destruct (step_workers m e) as [-> | (id & w & ->)];
      [done | by apply put_worker_keys_NoDup]. }
  apply H, register_plugins_NoDup.
Qed.




(** ** The status bar and the console section *)

Lemma builds_nonempty m :
  Nat.ltb 0 (size (allFileBuilds m)) = true ↔ allFileBuilds m ≠ ∅.
Proof.
  rewrite Nat.ltb_lt. split.
  - intros Hpos Hempty. rewrite Hempty, size_empty in Hpos. lia.
  - intros Hne. destruct (size (allFileBuilds m)) eqn:Hsize; [|lia].
    destruct Hne. apply leibniz_equiv. by apply size_empty_iff.
Qed.

(** X10: the building indicator is written exactly when the server counts
    as started and some file is being built.  While the server has not
    started, builds in progress are not shown at all. *)
Theorem building_indicator_shown (m : Model) :
  building_indicator ∈ screen m ↔
  isServerStarted m = true ∧ allFileBuilds m ≠ ∅.
Proof.
  unfold screen. rewrite elem_of_cons, !elem_of_app. split.
  - intros [H|[H|[H|[H|H]]]].
    + unfold clear_page in H. by destruct (String.eqb platform "win32").
    + unfold console_section in H.
      destruct (negb (Nat.eqb (length (consoleOutput m)) 0));
        [|by apply elem_of_nil in H].
      rewrite !elem_of_cons, elem_of_nil in H.
      destruct H as [H|[H|[H|[]]]]; discriminate H.
    + unfold worker_sections in H. apply list_elem_of_In, in_flat_map in H.
      destruct H as ([script w] & _ & H). unfold worker_section in H.
      simpl in H.
      destruct (truthy_string (output w)
                && negb (hideOutput script (output w))); [|done].
      destruct (isArray (error w)); destruct H as [H|[H|[H|[]]]];
        discriminate H.
    + unfold dashboard in H. destruct (isServerStarted m).
      * split; [done|]. apply builds_nonempty.
        destruct (Nat.ltb 0 (size (allFileBuilds m))); [done|].
        simpl in H. rewrite elem_of_cons, elem_of_nil in H.
        destruct H as [H|[]]. discriminate H.
      * rewrite elem_of_cons, elem_of_nil in H. destruct H as [H|[]].
        discriminate H.
    + unfold install_section in H.
      destruct (isInstalling m); [|by apply elem_of_nil in H].
      rewrite !elem_of_cons, elem_of_nil in H.
      destruct H as [H|[H|[H|[]]]]; discriminate H.
  - intros [Hstarted Hbuilds]. right. right. right. left.
    unfold dashboard. rewrite Hstarted.
    apply builds_nonempty in Hbuilds. rewrite Hbuilds. by left.
Qed.

Lemma console_header_shown m :
  console_header ∈ screen m ↔ consoleOutput m ≠ [].
Proof.
  unfold screen. rewrite elem_of_cons, !elem_of_app. split.
  - intros [H|[H|[H|[H|H]]]].
    + unfold clear_page in H. by destruct (String.eqb platform "win32").
    + unfold console_section in H. destruct (consoleOutput m); [|done].
      by apply elem_of_nil in H.
    + unfold worker_sections in H. apply list_elem_of_In, in_flat_map in H.
      destruct H as ([script w] & _ & H). unfold worker_section in H.
      simpl in H.
      destruct (truthy_string (output w)
                && negb (hideOutput script (output w))); [|done].
      destruct (isArray (error w)); destruct H as [H|[H|[H|[]]]];
        discriminate H.
    + unfold dashboard in H. destruct (isServerStarted m).
      * destruct (Nat.ltb 0 (size (allFileBuilds m))); simpl in H;
          rewrite ?elem_of_cons, elem_of_nil in H;
          [destruct H as [H|[H|[]]] | destruct H as [H|[]]]; discriminate H.
      * rewrite elem_of_cons, elem_of_nil in H. destruct H as [H|[]].
        discriminate H.
    + unfold install_section in H.
      destruct (isInstalling m); [|by apply elem_of_nil in H].
      rewrite !elem_of_cons, elem_of_nil in H.
      destruct H as [H|[H|[H|[]]]]; discriminate H.
  - intros Hlog. right. left. unfold console_section.
    destruct (consoleOutput m); [done|]. by left.
Qed.

(** X11: the console section is drawn exactly when something has been
    logged; and once it is drawn it is drawn on every later screen, since
    the log never shrinks. *)
Theorem console_section_persists (m : Model) (es : list Event) :
  (console_header ∈ screen m ↔ consoleOutput m ≠ []) ∧
  (console_header ∈ screen m → console_header ∈ screen (run m es)).
Proof.
  split; [apply console_header_shown|].
  rewrite !console_header_shown, run_console.
  intros Hlog Hnil. by apply app_eq_nil in Hnil as [? _].
Qed.

Lemma step_server_vars m e :
  server_vars (step m e) =
  match e with
  | SERVER_START info => info_vars info
  | _ => server_vars m
  end.
Proof.
  pose proof (step_frame m e) as H.
  destruct e;
    repeat match goal with
           | Hex : ∃ _, _ |- _ => destruct Hex as [? H]
           end;
    by rewrite H.
Qed.

(** X12: the server variables are always those of the last [SERVER_START]
    received, all five together; no other event touches them, and a later
    [SERVER_START] replaces an earlier one completely.  So the status bar,
    which reads only these variables and the set of builds, shows the
    address of the last [SERVER_START]. *)
Theorem server_vars_last_start (m : Model) (es : list Event) :
  server_vars (run m es) =
  match last_server_start es with
  | Some info => info_vars info
  | None => server_vars m
  end.
Proof.
  revert m. induction es as [|e es IH]; intros m; [done|].
  rewrite run_cons, IH, step_server_vars.
  destruct e; simpl; by destruct (last_server_start es).
Qed.

(** ** Builds that start and stop *)

(** X13: a build that starts and then stops leaves the model as it was
    before, if the file was not being built already; after a stop the file
    is never in the set, however many starts preceded it: starts of the
    same file are not counted. *)
Theorem build_start_stop (id : string) (m : Model) :
  let p := path_relative cwd id in
  (p ∉ allFileBuilds m →
   run m [BUILD_FILE id true; BUILD_FILE id false] = m) ∧
  (p ∉ allFileBuilds (step m (BUILD_FILE id false))) ∧
  (p ∉ allFileBuilds
         (run m [BUILD_FILE id true; BUILD_FILE id true; BUILD_FILE id false])).
Proof.
  intros p. split; [|split].
  - intros Hp.
    change (run m [BUILD_FILE id true; BUILD_FILE id false])
      with (step (step m (BUILD_FILE id true)) (BUILD_FILE id false)).
    rewrite (step_frame _ (BUILD_FILE id false)),
      (step_frame _ (BUILD_FILE id true)). fold p. simpl.
    replace (({[p]} ∪ allFileBuilds m) ∖ {[p]}) with (allFileBuilds m);
      [by destruct m|].
    apply set_eq. intros x.
    rewrite elem_of_difference, elem_of_union, elem_of_singleton.
    split; [|tauto]. intros Hx. split; [tauto | congruence].
  - rewrite (step_frame _ (BUILD_FILE id false)). fold p. simpl.
    rewrite elem_of_difference, elem_of_singleton. tauto.
  - change (run m [BUILD_FILE id true; BUILD_FILE id true; BUILD_FILE id false])
      with (step (step (step m (BUILD_FILE id true)) (BUILD_FILE id true))
              (BUILD_FILE id false)).
    rewrite (step_frame _ (BUILD_FILE id false)). fold p. simpl.
    rewrite elem_of_difference, elem_of_singleton. tauto.
Qed.

(** ** The loop over the workers *)

Lemma Object_entries_named o :
  Forall (λ kv, array_index (fst kv) = None) o →
  indexed_entries o = [] ∧ named_entries o = o.
Proof.
  induction 1 as [|[k w] o Hk Ho [IH1 IH2]]; simpl; [done|].
  simpl in Hk. rewrite Hk. by rewrite IH1, IH2.
Qed.

(** X14: when no worker id is an array index (the canonical decimal form
    of an integer), the sections are drawn in the order in which the
    workers were created. *)
Theorem Object_entries_creation_order (o : list (string * WorkerState)) :
  Forall (λ kv, array_index (fst kv) = None) o → Object_entries o = o.
Proof.
  intros Ho. unfold Object_entries.
  destruct (Object_entries_named o Ho) as [-> ->]. done.
Qed.


(** X16: a repeated completion changes nothing: after [WORKER_COMPLETE]
    for an existing worker, a second [WORKER_COMPLETE] for it that carries
    no error, or the same error again, leaves every variable as it is. *)
Theorem worker_complete_repeated (w : string) (ws : WorkerState)
    (e1 e2 : ErrorVal) (m : Model) :
  WorkerStatus w m = Some ws → e2 = ErrNull ∨ e2 = e1 →
  run m [WORKER_COMPLETE w e1; WORKER_COMPLETE w e2]
  = step m (WORKER_COMPLETE w e1).
Proof.
  intros Hw He2.
  change (run m [WORKER_COMPLETE w e1; WORKER_COMPLETE w e2])
    with (step (step m (WORKER_COMPLETE w e1)) (WORKER_COMPLETE w e2)).
  unfold step at 1.
  assert (H1 : step m (WORKER_COMPLETE w e1) =
               set_allWorkerStates
                 (put_worker w (completed e1 ws) (allWorkerStates m)) m).
  { unfold step. by rewrite (emit_WORKER_COMPLETE_Some _ _ _ _ Hw). }
  rewrite H1.
  rewrite (emit_WORKER_COMPLETE_Some _ _ (completed e1 ws));
    [|apply WorkerStatus_put_eq].
  simpl. rewrite put_put. unfold set_allWorkerStates. simpl. do 2 f_equal.
  unfold completed. simpl. f_equal. unfold or_else.
  destruct He2 as [-> | ->]; by destruct (error ws), e1.
Qed.

(** ** [trim] removes white space, and only white space *)

Lemma substring_all s : substring 0 (String.length s) s = s.
Proof. induction s as [|c s IH]; simpl; [done | by rewrite IH]. Qed.

Lemma string_drop_app w post : string_drop (String.length w) (w ++ post) = post.
Proof.
  induction w as [|c w IH].
  - unfold string_drop. change ("" ++ post) with post.
    change (String.length "") with 0. rewrite Nat.sub_0_r.
    apply substring_all.
  - rewrite string_app_cons. unfold string_drop in *. simpl. exact IH.
Qed.

Lemma strip_one_Some ws s s' :
  strip_one ws s = Some s' → ∃ w, In w ws ∧ s = w ++ s'.
Proof.
  induction ws as [|w ws IH]; simpl; [done|].
  destruct (String.prefix w s) eqn:Hp.
  - intros [= <-]. exists w. split; [by left|].
    apply prefix_spec in Hp as (post & ->). by rewrite string_drop_app.
  - intros H. destruct (IH H) as (w' & Hin & Heq). exists w'. auto.
Qed.

Lemma strip_one_None ws s w :
  strip_one ws s = None → In w ws → String.prefix w s = false.
Proof.
  induction ws as [|w' ws IH]; simpl; [done|].
  destruct (String.prefix w' s) eqn:Hp; [done|].
  intros H [<- | Hin]; [done | by apply IH].
Qed.

Lemma strip_all_spec fuel ws s :
  ∃ pre, s = pre ++ strip_all fuel ws s ∧ white_run ws pre.
Proof.
  revert s. induction fuel as [|fuel IH]; intros s; simpl.
  - exists "". split; [done | constructor].
  - destruct (strip_one ws s) as [s'|] eqn:Hs.
    + destruct (strip_one_Some _ _ _ Hs) as (w & Hin & ->).
      destruct (IH s') as (pre & Hpre & Hrun).
      exists (w ++ pre). split; [|by constructor].
      rewrite string_app_assoc. by rewrite <- Hpre.
    + exists "". split; [done | constructor].
Qed.

Lemma strip_all_fixed fuel ws s :
  strip_one ws s = None → strip_all fuel ws s = s.
Proof. intros H. destruct fuel; simpl; [done | by rewrite H]. Qed.

Lemma list_ascii_of_string_app a b :
  list_ascii_of_string (a ++ b)
  = (list_ascii_of_string a ++ list_ascii_of_string b)%list.
Proof.
  induction a as [|c a IH]; [done|]. rewrite string_app_cons. simpl.
  by rewrite IH.
Qed.

Lemma string_of_list_ascii_app l1 l2 :
  string_of_list_ascii (l1 ++ l2)
  = string_of_list_ascii l1 ++ string_of_list_ascii l2.
Proof.
  induction l1 as [|c l1 IH]; [done|]. simpl. rewrite string_app_cons.
  by rewrite IH.
Qed.

Lemma string_rev_app a b : string_rev (a ++ b) = string_rev b ++ string_rev a.
Proof.
  unfold string_rev.
  by rewrite list_ascii_of_string_app, rev_app_distr, string_of_list_ascii_app.
Qed.

Lemma white_run_snoc ws a w :
  white_run ws a → In w ws → white_run ws (a ++ w).
Proof.
  induction 1 as [|w' s Hw' Hs IH]; intros Hw.
  - change ("" ++ w) with w. rewrite <- (string_app_nil_r w).
    constructor; [done | constructor].
  - rewrite string_app_assoc. constructor; auto.
Qed.

Lemma white_run_rev ws a :
  white_run (map string_rev ws) a → white_run ws (string_rev a).
Proof.
  induction 1 as [|w s Hw Hs IH]; [constructor|].
  rewrite string_rev_app. apply white_run_snoc; [done|].
  apply in_map_iff in Hw as (w0 & <- & Hw0).
  by rewrite string_rev_involutive.
Qed.

Lemma trimStart_spec s :
  ∃ lead, s = lead ++ trimStart s ∧ white_run white_space lead.
Proof. apply strip_all_spec. Qed.

Lemma trimEnd_spec s :
  ∃ trail, s = trimEnd s ++ trail ∧ white_run white_space trail.
Proof.
  unfold trimEnd.
  destruct (strip_all_spec (String.length s) (map string_rev white_space)
              (string_rev s)) as (pre & Hpre & Hrun).
  exists (string_rev pre). split; [|by apply white_run_rev].
  rewrite <- string_rev_app, <- Hpre. by rewrite string_rev_involutive.
Qed.

(** X17: what [repaint] prints of a worker's output, [output.trim()], is the
    output without a run of white-space characters at the front and one at
    the end: nothing else is removed, neither end of the result is a
    white-space character, and trimming again changes nothing. *)
Theorem trim_spec (s : string) :
  (∃ lead trail,
     s = lead ++ trim s ++ trail ∧
     white_run white_space lead ∧ white_run white_space trail) ∧
  strip_one white_space (trim s) = None ∧
  strip_one (map string_rev white_space) (string_rev (trim s)) = None ∧
  trim (trim s) = trim s.
Proof.
  destruct (trimStart_spec s) as (lead & Hlead & Hrun1).
  destruct (trimEnd_spec (trimStart s)) as (trail & Htrail & Hrun2).
  assert (Hstart : strip_one white_space (trim s) = None).
  { destruct (strip_one white_space (trim s)) as [rest|] eqn:Hs; [|done].
    destruct (strip_one_Some _ _ _ Hs) as (w & Hin & Hw).
    pose proof (strip_one_None _ _ w (trimStart_stripped s) Hin) as Hno.
    assert (Hyes : String.prefix w (trimStart s) = true).
    { apply prefix_spec. exists (rest ++ trail). rewrite Htrail.
      unfold trim in Hw. rewrite Hw. by rewrite string_app_assoc. }
    congruence. }
  pose proof (trimEnd_stripped (trimStart s)) as Hend.
  fold (trim s) in Hend.
  split; [|split; [exact Hstart | split; [exact Hend|]]].
  - exists lead, trail. split; [|done].
    unfold trim. by rewrite <- Htrail.
  - unfold trim at 1. unfold trimStart.
    rewrite (strip_all_fixed _ _ _ Hstart). unfold trimEnd.
    rewrite (strip_all_fixed _ _ _ Hend). apply string_rev_involutive.
Qed.

(** ** [getPort] *)

Lemma canonicalize_N c :
  Ascii.eqb (canonicalize c) "N" = true ↔ c = "n"%char ∨ c = "N"%char.
Proof.
  destruct c as [[] [] [] [] [] [] [] []]; vm_compute;
    (split; [intros H; first [discriminate H | by left | by right]
            | intros [H|H]; first [discriminate H | done]]).
Qed.

Lemma canonicalize_O c :
  Ascii.eqb (canonicalize c) "O" = true ↔ c = "o"%char ∨ c = "O"%char.
Proof.
  destruct c as [[] [] [] [] [] [] [] []]; vm_compute;
    (split; [intros H; first [discriminate H | by left | by right]
            | intros [H|H]; first [discriminate H | done]]).
Qed.

(** X18: the answers that decline the offered port are exactly [n] and
    [no], in any mix of upper and lower case.  Every other line accepts it:
    the empty line, [y], and also [nope] or an [n] followed by a space. *)
Theorem test_no_spec (answer : string) :
  test_no answer = true ↔
  answer = "n" ∨ answer = "N" ∨
  answer = "no" ∨ answer = "nO" ∨ answer = "No" ∨ answer = "NO".
Proof.
  destruct answer as [|c [|d [|x rest]]]; simpl.
  - split; [done | intros [H|[H|[H|[H|[H|H]]]]]; discriminate H].
  - rewrite canonicalize_N. split.
    + intros [-> | ->]; auto.
    + intros [H|[H|[H|[H|[H|H]]]]]; inversion H; auto.
  - rewrite andb_true_iff, canonicalize_N, canonicalize_O. split.
    + intros [[-> | ->] [-> | ->]]; auto 10.
    + intros [H|[H|[H|[H|[H|H]]]]]; inversion H; auto.
  - split; [done | intros [H|[H|[H|[H|[H|H]]]]]; discriminate H].
Qed.

(** X19: [getPort] returns only what [detectPort] reported, never the
    default port when that one is taken; and when the default port is free
    it returns it without asking or printing anything. *)
Theorem getPort_returns_detected (detectPort : Z → Z) (isTTY : bool)
    (answer : string) (defaultPort : Z) :
  (∀ p, snd (getPort detectPort isTTY answer defaultPort) = Returned p →
        p = detectPort defaultPort) ∧
  (detectPort defaultPort = defaultPort →
   getPort detectPort isTTY answer defaultPort = ([], Returned defaultPort)).
Proof.
  unfold getPort. split.
  - intros p. destruct (Z.eqb defaultPort (detectPort defaultPort)); simpl.
    + by intros [= <-].
    + destruct isTTY; simpl; [|done].
      destruct (test_no answer); simpl; [done | by intros [= <-]].
  - intros ->. by rewrite Z.eqb_refl.
Qed.

(** X20: [getPort] ends the process, with exit status 1 and after the error
    line and an empty line on standard error, exactly when the default port
    is taken and either standard output is not a terminal or the user
    declines.  Without a terminal the other port is never taken
    silently. *)
Theorem getPort_exits (detectPort : Z → Z) (isTTY : bool)
    (answer : string) (defaultPort : Z) :
  let r := getPort detectPort isTTY answer defaultPort in
  ((∃ code, snd r = Exited code) ↔
   detectPort defaultPort ≠ defaultPort ∧
   (isTTY = false ∨ test_no answer = true)) ∧
  (∀ code, snd r = Exited code →
     code = 1%Z ∧
     ∃ before,
       fst r = (before ++ [ console_error (Some (PortNotAvailable defaultPort));
                            console_error None ])%list).
Proof.
  unfold getPort.
  destruct (Z.eqb_spec defaultPort (detectPort defaultPort)) as [Heq|Hne];
    simpl.
  - split; [|done]. split; [by intros [code ?] | intros [Hd _]; congruence].
  - destruct isTTY; simpl; [destruct (test_no answer); simpl|].
    + split; [|intros code [= <-]; split; [done | by eexists [_; _]]].
      split; [intros _; split; [congruence | by right] | by eexists].
    + split; [|done]. split; [by intros [code ?]|].
      intros [_ [H|H]]; discriminate H.
    + split; [|intros code [= <-]; split; [done | by exists []]].
      split; [intros _; split; [congruence | by left] | by eexists].
Qed.

(** X21: [getPort] asks its question exactly when the default port is
    taken and standard output is a terminal; it asks once, names both
    ports, and closes the readline interface right after the answer. *)
Theorem getPort_question (detectPort : Z → Z) (isTTY : bool)
    (answer : string) (defaultPort : Z) :
  let r := getPort detectPort isTTY answer defaultPort in
  let ask := rl_question (AskNextPort defaultPort (detectPort defaultPort)) in
  if negb (Z.eqb defaultPort (detectPort defaultPort)) && isTTY
  then ∃ after, fst r = ask :: rl_close :: after ∧
                Forall (λ io, ∃ line, io = console_error line) after
  else Forall (λ io, ∃ line, io = console_error line) (fst r).
Proof.
  unfold getPort.
  destruct (Z.eqb defaultPort (detectPort defaultPort)); simpl;
    [constructor|].
  destruct isTTY; simpl.
  - destruct (test_no answer); simpl; eexists; (split; [reflexivity|]);
      repeat constructor; by eexists.
  - repeat constructor; by eexists.
Qed.

(** ** Resets, the status line, and indentation *)

(** X22: a reset discards everything a worker printed before it: after
    [WORKER_RESET] for [w], whatever came earlier, the output of [w] is
    exactly what the later [WORKER_MSG] events sent to it, as long as no
    further reset arrives. *)
Theorem reset_discards (w : string) (m : Model) (es1 es2 : list Event) :
  Forall (λ ev, ev ≠ WORKER_RESET w) es2 →
  output <$> WorkerStatus w (run m (es1 ++ WORKER_RESET w :: es2))
  = Some (messages_for w es2).
Proof.
  intros Hes. rewrite run_app, run_cons.
  assert (Hw : WorkerStatus w (step (run m es1) (WORKER_RESET w))
               = Some WORKER_BASE_STATE).
  { unfold step. rewrite emit_WORKER_RESET. simpl. apply WorkerStatus_put_eq. }
  destruct (run_record w _ _ es2 Hw Hes) as (ws' & Hw' & Hout & _).
  rewrite Hw'. simpl. by rewrite Hout.
Qed.



Lemma indent_lines_plain s :
  ¬ In LF (list_ascii_of_string s) → indent_lines s = s.
Proof.
  induction s as [|c s IH]; simpl; [done|]. intros Hnot.
  destruct (Ascii.eqb_spec c LF) as [->|Hne]; [destruct Hnot; by left|].
  rewrite IH; [done|]. intros Hin. apply Hnot. by right.
Qed.

(** X24: how the output of a worker is indented: when the output is made of
    lines separated by line feeds, every line after the first is moved
    right by two spaces and nothing else changes. *)
Theorem indent_lines_lines (lines : list string) :
  Forall (λ line, ¬ In LF (list_ascii_of_string line)) lines →
  indent_lines (join (String LF "") lines) = join indent_break lines.
Proof.
  unfold join. induction 1 as [|line lines Hline Hlines IH]; [done|].
  destruct lines as [|next lines].
  - by apply indent_lines_plain.
  - change (String.concat ?sep (line :: next :: lines))
      with (line ++ sep ++ String.concat sep (next :: lines)).
    rewrite indent_lines_app, (indent_lines_plain _ Hline).
    rewrite indent_lines_app, IH. reflexivity.
Qed.

End Paint.

(** ** The theorems at concrete inputs *)

(** [tsc] is registered and has no error; it completes with an [Error];
    then another completion without error, a message and a third completion
    follow.  The stored error is the first one throughout. *)
Lemma sticky_error_witness :
  let es := [ WORKER_COMPLETE "tsc" ErrNull; WORKER_MSG "tsc" "done";
              WORKER_COMPLETE "tsc" ErrNull ] in
  let e := ErrObject "exit code 2" in
  let run' := run "linux" "/project" relative_plain in
  error <$> WorkerStatus "tsc" (run' (initial ["tsc"]) [WORKER_COMPLETE "tsc" e])
  = Some e ∧
  error <$> WorkerStatus "tsc" (run' (initial ["tsc"]) (WORKER_COMPLETE "tsc" e :: es))
  = Some e.
Proof.
  intros es e run'.
  destruct (sticky_error "linux" "/project" relative_plain "tsc" e
              (initial ["tsc"]) WORKER_BASE_STATE es) as (H1 & H2 & _).
  - reflexivity.
  - reflexivity.
  - discriminate.
  - repeat constructor; discriminate.
  - split; [exact H1 | exact H2].
Defined.

(** Nothing is being built at the start, so a stop event for [a.js] changes
    nothing. *)
Lemma buildset_idempotent_witness :
  ("a.js" ∉ allFileBuilds (initial [])) ∧
  step "linux" "/project" relative_plain (initial []) (BUILD_FILE "a.js" false)
  = initial [].
Proof.
  assert (H : "a.js" ∉ allFileBuilds (initial [])) by apply not_elem_of_empty.
  split; [exact H|].
  exact (proj2 (buildset_idempotent "linux" "/project" relative_plain "a.js"
                  (initial [])) H).
Defined.

(** The server-start scenario with [startTimeMs = 1]. *)
Lemma server_start_shows_ready_witness :
  (0 < 1)%Z ∧
  written (emit "linux" "/project" relative_plain
             (SERVER_START (scenario_info_at 1)) (initial []))
  = [ clear_page "linux";
      Cat snowpack_badge
        (Cat ready_badge (Plain " localhost:8080 › 192.168.1.5")) ].
Proof.
  assert (H : (0 < 1)%Z) by lia.
  split; [exact H|].
  exact (proj1 (proj2 (server_start_shows_ready "linux" "/project"
                         relative_plain [] 1%Z H))).
Defined.

(** C4 as stated fails: the payload of the scenario has no [startTimeMs],
    so [startTimeMs > 0] is false and the status bar is the loading line;
    the ready line is not on the screen. *)
Lemma server_start_scenario_shows_loading :
  let r := emit "linux" "/project" relative_plain
             (SERVER_START scenario_info) (initial []) in
  allFileBuilds (initial []) = ∅ ∧
  written r = [clear_page "linux"; loading_line] ∧
  ¬ (Cat snowpack_badge
       (Cat ready_badge (Plain " localhost:8080 › 192.168.1.5"))
     ∈ written r).
Proof.
  intros r. split; [reflexivity|]. split; [reflexivity|].
  change (written r) with [clear_page "linux"; loading_line].
  rewrite !elem_of_cons, elem_of_nil.
  intros [H|[H|[]]]; discriminate H.
Qed.

(** ** Further theorems at concrete inputs *)

(** [tsc] prints [a], then completes, then prints [b], while [eslint]
    prints something of its own: the output of [tsc] is [ab]. *)
Lemma output_accumulates_witness :
  output <$> WorkerStatus "tsc"
    (run "linux" "/project" relative_plain (initial ["tsc"])
       [ WORKER_MSG "tsc" "a"; WORKER_MSG "eslint" "x";
         WORKER_COMPLETE "tsc" ErrNull; WORKER_MSG "tsc" "b" ])
  = Some "ab".
Proof.
  apply (output_accumulates "linux" "/project" relative_plain "tsc"
           WORKER_BASE_STATE (initial ["tsc"])).
  - reflexivity.
  - repeat constructor; discriminate.
Defined.

Lemma done_until_reset_witness :
  done <$> WorkerStatus "tsc"
    (run "linux" "/project" relative_plain
       (step "linux" "/project" relative_plain (initial ["tsc"])
          (WORKER_COMPLETE "tsc" ErrNull))
       [ WORKER_MSG "tsc" "x"; WORKER_UPDATE "tsc" (StPair "RUNNING" "yellow") ])
  = Some true.
Proof.
  apply (done_until_reset "linux" "/project" relative_plain "tsc"
           (completed ErrNull WORKER_BASE_STATE)).
  - reflexivity.
  - reflexivity.
  - repeat constructor; discriminate.
Defined.

(** [tsc] reports no errors and then an error: the error stays hidden. *)
Lemma hidden_until_reset_witness :
  ∃ ws',
    WorkerStatus "tsc"
      (run "linux" "/project" relative_plain
         (step "linux" "/project" relative_plain (initial ["tsc"])
            (WORKER_MSG "tsc" "Found 0 errors."))
         [WORKER_MSG "tsc" "error TS2322"]) = Some ws' ∧
    output ws' = "Found 0 errors." ++ "error TS2322" ∧
    worker_section ("tsc", ws') = [].
Proof.
  apply (hidden_until_reset "linux" "/project" relative_plain "tsc"
           (set_output "Found 0 errors." WORKER_BASE_STATE)).
  - reflexivity.
  - reflexivity.
  - repeat constructor; discriminate.
Defined.

Lemma other_workers_untouched_witness :
  WorkerStatus "tsc"
    (step "linux" "/project" relative_plain (initial ["tsc"])
       (WORKER_RESET "eslint"))
  = WorkerStatus "tsc" (initial ["tsc"]).
Proof.
  apply (other_workers_untouched "linux" "/project" relative_plain "tsc").
  discriminate.
Defined.

Lemma console_section_persists_witness :
  let m := step "linux" "/project" relative_plain (initial []) (INFO "hello") in
  console_header ∈ screen "linux" m ∧
  console_header
  ∈ screen "linux"
      (run "linux" "/project" relative_plain m [WORKER_MSG "tsc" "x"]).
Proof.
  intros m.
  assert (H : console_header ∈ screen "linux" m)
    by (apply list_elem_of_In; right; left; reflexivity).
  split; [exact H|].
  exact (proj2 (console_section_persists "linux" "/project" relative_plain m
                  [WORKER_MSG "tsc" "x"]) H).
Defined.

Lemma build_start_stop_witness :
  ("a.js" ∉ allFileBuilds (initial [])) ∧
  run "linux" "/project" relative_plain (initial [])
    [BUILD_FILE "a.js" true; BUILD_FILE "a.js" false]
  = initial [].
Proof.
  assert (H : "a.js" ∉ allFileBuilds (initial [])) by apply not_elem_of_empty.
  split; [exact H|].
  exact (proj1 (build_start_stop "linux" "/project" relative_plain "a.js"
                  (initial [])) H).
Defined.

Lemma Object_entries_creation_order_witness :
  Object_entries [("tsc", WORKER_BASE_STATE); ("eslint", WORKER_BASE_STATE)]
  = [("tsc", WORKER_BASE_STATE); ("eslint", WORKER_BASE_STATE)].
Proof.
  apply Object_entries_creation_order. repeat constructor.
Defined.

Lemma worker_complete_repeated_witness :
  run "linux" "/project" relative_plain (initial ["tsc"])
    [ WORKER_COMPLETE "tsc" (ErrObject "exit code 2");
      WORKER_COMPLETE "tsc" ErrNull ]
  = step "linux" "/project" relative_plain (initial ["tsc"])
      (WORKER_COMPLETE "tsc" (ErrObject "exit code 2")).
Proof.
  apply (worker_complete_repeated "linux" "/project" relative_plain "tsc"
           WORKER_BASE_STATE).
  - reflexivity.
  - by left.
Defined.

(** Port 8080 is free: it is returned and nothing is asked or printed. *)
Lemma getPort_returns_detected_witness :
  detect_3000_taken 8080 = 8080%Z ∧
  getPort detect_3000_taken false "" 8080 = ([], Returned 8080%Z).
Proof.
  assert (H : detect_3000_taken 8080 = 8080%Z) by reflexivity.
  split; [exact H|].
  exact (proj2 (getPort_returns_detected detect_3000_taken false "" 8080%Z) H).
Defined.

(** Port 3000 is taken and the user answers [No]. *)
Lemma getPort_exits_witness :
  snd (getPort detect_3000_taken true "No" 3000) = Exited 1%Z ∧
  ∃ before,
    fst (getPort detect_3000_taken true "No" 3000) =
    (before ++ [ console_error (Some (PortNotAvailable 3000));
                 console_error None ])%list.
Proof.
  assert (H : snd (getPort detect_3000_taken true "No" 3000) = Exited 1%Z)
    by reflexivity.
  split; [exact H|].
  exact (proj2 (proj2 (getPort_exits detect_3000_taken true "No" 3000%Z)
                  1%Z H)).
Defined.

Lemma reset_discards_witness :
  output <$> WorkerStatus "tsc"
    (run "linux" "/project" relative_plain (initial [])
       ([WORKER_MSG "tsc" "Found 0 errors."]
        ++ WORKER_RESET "tsc" :: [WORKER_MSG "tsc" "error TS2322"]))
  = Some "error TS2322".
Proof.
  apply (reset_discards "linux" "/project" relative_plain "tsc" (initial [])
           [WORKER_MSG "tsc" "Found 0 errors."]
           [WORKER_MSG "tsc" "error TS2322"]).
  repeat constructor; discriminate.
Defined.

Lemma indent_lines_lines_witness :
  indent_lines (join (String LF "") ["src/a.ts"; "error TS2322"])
  = join indent_break ["src/a.ts"; "error TS2322"].
Proof.
  apply indent_lines_lines.
  repeat constructor; vm_compute; intuition discriminate.
Defined.
